(** * zynthian_engine: the synth-engine base class of zynthian-ui

    A shallow embedding of [zyngine/zynthian_engine.py].  The Python object
    is a record of its attributes, the mutable lists it refers to live in an
    explicit heap, and every method is a function in a small state-and-error
    monad that also records the calls made to the outside (GUI, logging,
    subprocess, liblo, MIDI) in a trace. *)

From Stdlib Require Import ZArith String Ascii List Lia Permutation Sorted.
From stdpp Require Import base gmap strings list.

Local Open Scope string_scope.
Local Open Scope Z_scope.

(** ** Python values *)

(** Lists are the only mutable objects of the controller tables; a list value
    is a reference into the heap, so two references to one list alias. *)
Definition loc := positive.

Inductive val :=
  | VNone
  | VInt (z : Z)
  | VStr (s : string)
  | VRef (l : loc).

#[global] Instance val_eq_dec : EqDecision val.
Proof. solve_decision. Defined.

Abbreviation heap := (gmap loc (list val)).

(** The exception classes the module can meet.  All of them derive from
    [Exception]; [SystemError] stands for a dangling reference, which the
    Python runtime excludes. *)
Inductive exn :=
  | IndexError
  | TypeError
  | AttributeError
  | OSError
  | AddressError
  | ServerError
  | SystemError.

#[global] Instance exn_eq_dec : EqDecision exn.
Proof. solve_decision. Defined.

Inductive result (A : Type) :=
  | Ok (a : A)
  | Raise (e : exn).
Arguments Ok {A} a.
Arguments Raise {A} e.

(** ** The outside world *)

Inductive gui := Gui.
Inductive proc_handle := Popen_object (pid : Z).
Inductive address := Address (host : string) (port : Z) (proto : Z).
Inductive server := ServerThread_object (port : Z).

Inductive log_level := LInfo | LError | LDebug.

Inductive event :=
  | EvGuiStartLoading
  | EvGuiStopLoading
  | EvLog (lvl : log_level) (msg : string)
  | EvPopen (command : val) (shell : bool)
  | EvThreadStart
  | EvStdinWrite (pid : Z) (text : string)
  | EvStdinFlush (pid : Z)
  | EvTerminate (pid : Z)
  | EvSleep
  | EvKill (pid : Z)
  | EvKillpg (pid : Z)
  | EvOscAddMethod
  | EvOscServerStart
  | EvOscSend (target : option address) (path : string) (value : val)
  | EvMidiControl (chan : Z) (cc : Z) (value : val).

(** What the libraries and the operating system answer.  These are not part
    of the module; every function below takes them as a parameter. *)
Record world := mk_world {
  w_popen : val → bool → result proc_handle;
  w_stdin_write : proc_handle → string → result unit;
  w_stdin_flush : proc_handle → result unit;
  w_queue_lines : list string;
  w_terminate : proc_handle → result unit;
  w_kill : proc_handle → result unit;
  w_killpg : Z → result unit;
  w_address : string → Z → Z → result address;
  w_server_thread : Z → result server;
  w_get_url : address → string;
  w_listdir : string → result (list string);
  w_isfile : string → bool;
  w_isdir : string → bool;
  (* methods that the engine subclasses provide *)
  w_get_ctrl_osc_val : val → val → val;
  w_get_ctrl_midi_val : val → val → val;
  (* [liblo.send(target, path, value)]: what the library answers, also for
     a target that is [None] *)
  w_liblo_send : option address → string → val → result unit
}.

(** ** The engine object *)

(** The attributes of [zynthian_engine].  [ctrl_config], [midi_chan] and
    [ctrl_list] are used by the controller methods but declared by no line
    of the module: they are whatever the instance carries.  [ctrl_config] is
    the per-channel store, indexed by [self.ctrl_config[ch]] for [ch] in
    [range(16)]: a Python list of slots. *)
Record state := mk_state {
  zyngui : option gui;
  name : string;
  command : val;
  proc : option proc_handle;
  queue : bool;
  osc_target : option address;
  osc_target_port : Z;
  osc_server : option server;
  osc_server_port : option Z;
  osc_server_url : option string;
  loading : Z;
  ctrl_config : list val;
  midi_chan : val;
  ctrl_list : val;
  mem : heap;
  trace : list event
}.

Definition set_proc (p : option proc_handle) (s : state) : state :=
  mk_state (zyngui s) (name s) (command s) p (queue s) (osc_target s)
    (osc_target_port s) (osc_server s) (osc_server_port s) (osc_server_url s)
    (loading s) (ctrl_config s) (midi_chan s) (ctrl_list s) (mem s) (trace s).

Definition set_queue (q : bool) (s : state) : state :=
  mk_state (zyngui s) (name s) (command s) (proc s) q (osc_target s)
    (osc_target_port s) (osc_server s) (osc_server_port s) (osc_server_url s)
    (loading s) (ctrl_config s) (midi_chan s) (ctrl_list s) (mem s) (trace s).

Definition set_osc_target (a : option address) (s : state) : state :=
  mk_state (zyngui s) (name s) (command s) (proc s) (queue s) a
    (osc_target_port s) (osc_server s) (osc_server_port s) (osc_server_url s)
    (loading s) (ctrl_config s) (midi_chan s) (ctrl_list s) (mem s) (trace s).

Definition set_osc_server (v : option server) (s : state) : state :=
  mk_state (zyngui s) (name s) (command s) (proc s) (queue s) (osc_target s)
    (osc_target_port s) v (osc_server_port s) (osc_server_url s)
    (loading s) (ctrl_config s) (midi_chan s) (ctrl_list s) (mem s) (trace s).

Definition set_osc_server_port (p : option Z) (s : state) : state :=
  mk_state (zyngui s) (name s) (command s) (proc s) (queue s) (osc_target s)
    (osc_target_port s) (osc_server s) p (osc_server_url s)
    (loading s) (ctrl_config s) (midi_chan s) (ctrl_list s) (mem s) (trace s).

Definition set_osc_server_url (u : option string) (s : state) : state :=
  mk_state (zyngui s) (name s) (command s) (proc s) (queue s) (osc_target s)
    (osc_target_port s) (osc_server s) (osc_server_port s) u
    (loading s) (ctrl_config s) (midi_chan s) (ctrl_list s) (mem s) (trace s).

Definition set_loading (n : Z) (s : state) : state :=
  mk_state (zyngui s) (name s) (command s) (proc s) (queue s) (osc_target s)
    (osc_target_port s) (osc_server s) (osc_server_port s) (osc_server_url s)
    n (ctrl_config s) (midi_chan s) (ctrl_list s) (mem s) (trace s).

Definition set_ctrl_config (c : list val) (s : state) : state :=
  mk_state (zyngui s) (name s) (command s) (proc s) (queue s) (osc_target s)
    (osc_target_port s) (osc_server s) (osc_server_port s) (osc_server_url s)
    (loading s) c (midi_chan s) (ctrl_list s) (mem s) (trace s).


Definition set_mem (h : heap) (s : state) : state :=
  mk_state (zyngui s) (name s) (command s) (proc s) (queue s) (osc_target s)
    (osc_target_port s) (osc_server s) (osc_server_port s) (osc_server_url s)
    (loading s) (ctrl_config s) (midi_chan s) (ctrl_list s) h (trace s).

Definition emit (e : event) (s : state) : state :=
  mk_state (zyngui s) (name s) (command s) (proc s) (queue s) (osc_target s)
    (osc_target_port s) (osc_server s) (osc_server_port s) (osc_server_url s)
    (loading s) (ctrl_config s) (midi_chan s) (ctrl_list s) (mem s)
    (trace s ++ [e]).

(** ** The monad of methods: state passing with exceptions

    A raised exception keeps the state reached so far, as in Python. *)
Definition M (A : Type) := state → result A * state.

Definition ret {A} (a : A) : M A := fun s => (Ok a, s).
Definition raise {A} (e : exn) : M A := fun s => (Raise e, s).
Definition bind {A B} (m : M A) (k : A → M B) : M B :=
  fun s => match m s with
           | (Ok a, s') => k a s'
           | (Raise e, s') => (Raise e, s')
           end.
Definition get {A} (f : state → A) : M A := fun s => (Ok (f s), s).
Definition modify (f : state → state) : M unit := fun s => (Ok tt, f s).
Definition lift {A} (r : result A) : M A := fun s => (r, s).

(** [try: body except <classes>: handler] *)
Definition try_except {A} (body : M A) (catches : exn → bool)
    (handler : exn → M A) : M A :=
  fun s => match body s with
           | (Ok a, s') => (Ok a, s')
           | (Raise e, s') => if catches e then handler e s' else (Raise e, s')
           end.

Definition except_Exception (e : exn) : bool := true.
Definition except_bare (e : exn) : bool := true.
Definition except_AddressError (e : exn) : bool :=
  match e with AddressError => true | _ => false end.

Declare Scope py_scope.
Delimit Scope py_scope with py.
Notation "'let*' x ':=' m 'in' k" := (bind m (fun x => k))
  (at level 10, x name, m at level 100, k at level 200) : py_scope.
Notation "m >> k" := (bind m (fun _ => k))
  (at level 90, right associativity) : py_scope.
Local Open Scope py_scope.

Definition log (lvl : log_level) (msg : string) : M unit :=
  modify (emit (EvLog lvl msg)).

Definition when (b : bool) (m : M unit) : M unit := if b then m else ret tt.

Fixpoint for_each {A} (xs : list A) (body : A → M unit) : M unit :=
  match xs with
  | [] => ret tt
  | x :: rest => body x >> for_each rest body
  end.

(** ** Loading GUI signalization *)

(** [self.zyngui.start_loading()]: with [zyngui=None] the attribute lookup
    raises. *)
Definition zyngui_call (e : event) : M unit :=
  let* g := get zyngui in
  match g with
  | Some Gui => modify (emit e)
  | None => raise AttributeError
  end.

Definition start_loading : M unit :=
  let* n := get loading in
  modify (set_loading (n + 1)) >>
  let* n := get loading in
  when (n <? 1) (modify (set_loading 1)) >>
  zyngui_call EvGuiStartLoading.

Definition stop_loading : M unit :=
  let* n := get loading in
  modify (set_loading (n - 1)) >>
  let* n := get loading in
  when (n <? 0) (modify (set_loading 0)) >>
  zyngui_call EvGuiStopLoading.

Inductive busy_call := BusyBegin | BusyEnd.

Definition busy (c : busy_call) : M unit :=
  match c with BusyBegin => start_loading | BusyEnd => stop_loading end.

(** A caller issuing the calls one after the other; whatever a call returns
    or raises, the next one runs on the state it left. *)
Fixpoint run_calls (cs : list busy_call) (s : state) : state :=
  match cs with
  | [] => s
  | c :: rest => run_calls rest (snd (busy c s))
  end.

(** Nested and balanced: scanning from nesting depth [d], no end comes
    without an open begin and all begins are closed at the end. *)
Fixpoint balanced_from (d : nat) (cs : list busy_call) : bool :=
  match cs with
  | [] => Nat.eqb d 0
  | BusyBegin :: rest => balanced_from (S d) rest
  | BusyEnd :: rest =>
      match d with O => false | S d' => balanced_from d' rest end
  end.

Definition balanced (cs : list busy_call) : bool := balanced_from 0 cs.

(** ** Subprocess management and IPC *)

Definition pid_of (p : proc_handle) : Z :=
  match p with Popen_object pid => pid end.

(** [proc_get_lines]: pops lines from [self.queue] until a [get] times out.
    Which lines arrive in time is decided outside; without a queue object
    the attribute lookup [self.queue.get] raises, and only [Empty] is caught
    by the loop. *)
Definition proc_get_lines (w : world) : M (list string) :=
  let* q := get queue in
  if q then ret (w_queue_lines w) else raise AttributeError.

Definition start (w : world) (start_queue shell : bool) : M unit :=
  let* p := get proc in
  match p with
  | Some _ => ret tt
  | None =>
      let* nm := get name in
      log LInfo ("Starting Engine " ++ nm) >>
      try_except
        (start_loading >>
         let* cmd := get command in
         modify (emit (EvPopen cmd shell)) >>
         let* ph := lift (w_popen w cmd shell) in
         modify (set_proc (Some ph)) >>
         when start_queue
           (modify (set_queue true) >>
            modify (emit EvThreadStart) >>
            proc_get_lines w >> ret tt))
        except_Exception
        (fun _ => log LError "Can't start engine") >>
      stop_loading
  end.

(** [wait] is the grace period, here in milliseconds. *)
Definition stop (w : world) (wait : Z) : M unit :=
  let* p := get proc in
  match p with
  | None => ret tt
  | Some ph =>
      start_loading >>
      try_except
        (let* nm := get name in
         log LInfo ("Stoping Engine " ++ nm) >>
         let pid := pid_of ph in
         modify (emit (EvTerminate pid)) >>
         lift (w_terminate w ph) >>
         when (0 <? wait) (modify (emit EvSleep)) >>
         try_except
           (modify (emit (EvKill pid)) >>
            lift (w_kill w ph) >>
            modify (emit (EvKillpg pid)) >>
            lift (w_killpg w pid))
           except_bare
           (fun _ => ret tt))
        except_Exception
        (fun _ => log LError "Can't stop engine") >>
      modify (set_proc None) >>
      stop_loading
  end.

Definition newline : string := String (ascii_of_nat 10) EmptyString.

(** What [proc_cmd] hands back: the lines read, the empty string of the
    error path, or the [None] of a function that falls off its end. *)
Inductive cmd_out :=
  | OutNone
  | OutStr (s : string)
  | OutLines (lines : list string).

Definition proc_cmd (w : world) (cmd : string) (tout : Z) : M cmd_out :=
  let* p := get proc in
  match p with
  | None => ret OutNone
  | Some ph =>
      start_loading >>
      let* out :=
        try_except
          (modify (emit (EvStdinWrite (pid_of ph) (cmd ++ newline))) >>
           lift (w_stdin_write w ph (cmd ++ newline)) >>
           modify (emit (EvStdinFlush (pid_of ph))) >>
           lift (w_stdin_flush w ph) >>
           let* lines := proc_get_lines w in
           ret (OutLines lines))
          except_Exception
          (fun _ => log LError "Can't exec engine command" >> ret (OutStr ""))
      in
      stop_loading >>
      ret out
  end.

(** ** OSC management *)

Definition get_port (sv : server) : Z :=
  match sv with ServerThread_object port => port end.

Definition osc_add_methods : M unit :=
  let* sv := get osc_server in
  match sv with
  | Some _ => modify (emit EvOscAddMethod)
  | None => raise AttributeError
  end.

Definition osc_init (w : world) (proto : Z) : M unit :=
  start_loading >>
  try_except
    (let* port := get osc_target_port in
     let* a := lift (w_address w "localhost" port proto) in
     modify (set_osc_target (Some a)) >>
     log LInfo "OSC target in port" >>
     let* sv := lift (w_server_thread w proto) in
     modify (set_osc_server (Some sv)) >>
     modify (set_osc_server_port (Some (get_port sv))) >>
     let* a2 := lift (w_address w "localhost" (get_port sv) proto) in
     modify (set_osc_server_url (Some (w_get_url w a2))) >>
     log LInfo "OSC server running in port" >>
     osc_add_methods >>
     modify (emit EvOscServerStart))
    except_AddressError
    (fun _ =>
       log LError
         "OSC Server can't be initialized. Running without OSC feedback.") >>
  stop_loading.

Definition osc_end : M unit :=
  let* sv := get osc_server in
  match sv with
  | None => ret tt
  | Some _ =>
      start_loading >>
      try_except (log LInfo "OSC server stopped")
        except_Exception
        (fun _ => log LError "Can't stop OSC server") >>
      stop_loading
  end.

(** ** Generating lists from directories *)

(** Strings are byte strings here; [lower] folds the ASCII letters. *)
Definition ascii_lower (c : ascii) : ascii :=
  let n := nat_of_ascii c in
  if (Nat.leb 65 n && Nat.leb n 90)%bool then ascii_of_nat (n + 32) else c.

Fixpoint str_map (f : ascii → ascii) (s : string) : string :=
  match s with
  | EmptyString => EmptyString
  | String c rest => String (f c) (str_map f rest)
  end.

Definition str_lower (s : string) : string := str_map ascii_lower s.

(** [str.replace(s, '_', ' ')] *)
Definition str_replace_underscore (s : string) : string :=
  str_map (fun c => if Ascii.eqb c "_" then " "%char else c) s.

(** [s[-n:]] and [s[:-n]] for [n >= 1] *)
Definition str_last (n : nat) (s : string) : string :=
  let k := String.length s in
  if Nat.leb k n then s else substring (k - n) n s.

Definition str_drop_last (n : nat) (s : string) : string :=
  substring 0 (String.length s - n) s.

Definition str_startswith_slash (s : string) : bool :=
  match s with String "/" _ => true | _ => false end.

Definition str_endswith_slash (s : string) : bool :=
  String.eqb (str_last 1 s) "/".

(** [os.path.join] of two components *)
Definition join (a b : string) : string :=
  if str_startswith_slash b then b
  else if (String.eqb a "" || str_endswith_slash a)%bool then a ++ b
  else a ++ "/" ++ b.

(** [sorted] on strings: a stable insertion sort by byte order. *)
Fixpoint insert_sorted (x : string) (l : list string) : list string :=
  match l with
  | [] => [x]
  | y :: rest => if String.ltb y x || String.eqb y x then y :: insert_sorted x rest
                 else x :: l
  end.

Definition sorted (l : list string) : list string :=
  fold_right insert_sorted [] l.

(** One entry of a list: the tuple [(join(dp,f), i, title, dn)]. *)
Record entry := mk_entry {
  e_path : string;
  e_index : Z;
  e_title : string;
  e_root : string
}.

(** The inner loop over the files of one root; [acc] is [(res, i)]. *)
Fixpoint filelist_files (w : world) (dn dp fext : string) (fs : list string)
    (acc : list entry * Z) : list entry * Z :=
  match fs with
  | [] => acc
  | f :: rest =>
      let xlen := String.length fext in
      let '(res, i) := acc in
      if (w_isfile w (join dp f)
          && String.eqb (str_lower (str_last xlen f)) fext)%bool
      then
        let title := str_replace_underscore (str_drop_last xlen f) in
        let title := if String.eqb dn "_" then title else dn ++ "/" ++ title in
        filelist_files w dn dp fext rest
          ((res ++ [mk_entry (join dp f) i title dn])%list, i + 1)
      else filelist_files w dn dp fext rest acc
  end.

Fixpoint filelist_roots (w : world) (fext : string)
    (dpath : list (string * string)) (acc : list entry * Z)
    : M (list entry * Z) :=
  match dpath with
  | [] => ret acc
  | (dn, dp) :: rest =>
      let* fs := lift (w_listdir w dp) in
      filelist_roots w fext rest (filelist_files w dn dp fext (sorted fs) acc)
  end.

(** [dpath] is one directory or a list of labelled roots. *)
Definition get_filelist (w : world) (dpath : string + list (string * string))
    (fext : string) : M (list entry) :=
  start_loading >>
  let dpath := match dpath with inl d => [("_", d)] | inr l => l end in
  let fext := "." ++ fext in
  let* r := filelist_roots w fext dpath ([], 0) in
  stop_loading >>
  ret (fst r).

(** ** Python subscripting, truth and iteration *)

(** The position a list of length [n] gives to index [i]: negative indices
    count from the end. *)
Definition norm_index (n : nat) (i : Z) : option nat :=
  if (0 <=? i) && (i <? Z.of_nat n) then Some (Z.to_nat i)
  else if (- Z.of_nat n <=? i) && (i <? 0) then Some (Z.to_nat (Z.of_nat n + i))
  else None.

(** [l[i]] on a list *)
Definition list_getitem (l : list val) (i : val) : result val :=
  match i with
  | VInt z =>
      match norm_index (length l) z with
      | Some k => match l !! k with Some v => Ok v | None => Raise IndexError end
      | None => Raise IndexError
      end
  | _ => Raise TypeError
  end.

(** [l[i] = v] on a list *)
Definition list_setitem (l : list val) (i v : val) : result (list val) :=
  match i with
  | VInt z =>
      match norm_index (length l) z with
      | Some k => Ok (<[k:=v]> l)
      | None => Raise IndexError
      end
  | _ => Raise TypeError
  end.

Definition chars (s : string) : list val :=
  map (fun c => VStr (String c EmptyString)) (list_ascii_of_string s).

(** [x[i]] on any value: lists and strings subscript, [None] and integers
    do not. *)
Definition py_getitem (h : heap) (x i : val) : result val :=
  match x with
  | VRef l =>
      match h !! l with
      | Some items => list_getitem items i
      | None => Raise SystemError
      end
  | VStr s => list_getitem (chars s) i
  | VNone | VInt _ => Raise TypeError
  end.

(** [for a in x] *)
Definition py_iter (h : heap) (x : val) : result (list val) :=
  match x with
  | VRef l =>
      match h !! l with
      | Some items => Ok items
      | None => Raise SystemError
      end
  | VStr s => Ok (chars s)
  | VNone | VInt _ => Raise TypeError
  end.

(** [if x:] *)
Definition py_truthy (h : heap) (x : val) : result bool :=
  match x with
  | VNone => Ok false
  | VInt z => Ok (negb (z =? 0))
  | VStr s => Ok (negb (String.eqb s ""))
  | VRef l =>
      match h !! l with
      | Some items => Ok (negb (Nat.eqb (length items) 0))
      | None => Raise SystemError
      end
  end.

(** [x > 0] *)
Definition py_gt_zero (x : val) : result bool :=
  match x with
  | VInt z => Ok (0 <? z)
  | _ => Raise TypeError
  end.

(** ** copy.deepcopy

    The library function, for the values of this module: atoms are their own
    copy; a list not yet in the memo gets a new empty list, which is entered
    in the memo before the items are copied and appended one by one.  The
    fuel bounds the nesting of lists that are not yet in the memo. *)
Abbreviation memo := (gmap loc loc).

Definition heap_append (l : loc) (v : val) (h : heap) : heap :=
  match h !! l with
  | Some items => <[l := (items ++ [v])%list]> h
  | None => h
  end.

(** The loop [for a in x: append(deepcopy(a, memo))] filling the new list
    at [y]; [copy] is the recursive call. *)
Fixpoint copy_items (copy : val → memo * heap → option (val * (memo * heap)))
    (y : loc) (xs : list val) (st : memo * heap) : option (memo * heap) :=
  match xs with
  | [] => Some st
  | a :: rest =>
      match copy a st with
      | Some (a', st') => copy_items copy y rest (st'.1, heap_append y a' st'.2)
      | None => None
      end
  end.

Fixpoint deepcopy (fuel : nat) (x : val) (st : memo * heap) {struct fuel}
    : option (val * (memo * heap)) :=
  match x with
  | VRef l =>
      match st.1 !! l with
      | Some y => Some (VRef y, st)
      | None =>
          match fuel with
          | O => None
          | S fuel' =>
              match st.2 !! l with
              | None => None
              | Some items =>
                  let y := fresh (dom st.2) in
                  match copy_items (deepcopy fuel') y items
                          (<[l:=y]> st.1, <[y:=[]]> st.2) with
                  | Some st' => Some (VRef y, st')
                  | None => None
                  end
              end
          end
      end
  | _ => Some (x, st)
  end.

(** [copy.deepcopy(x)]: an empty memo, and fuel for every list of the
    heap. *)
Definition deepcopy_top (h : heap) (x : val) : option (val * heap) :=
  match deepcopy (S (size h)) x (∅, h) with
  | Some (y, st) => Some (y, st.2)
  | None => None
  end.

(** ** Controllers management *)


Definition get_ctrl_config (i : val) : M val :=
  try_except
    (let* cc := get ctrl_config in
     let* ch := get midi_chan in
     let* cfg := lift (list_getitem cc ch) in
     let* h := get mem in
     let* screen := lift (py_getitem h cfg i) in
     lift (py_getitem h screen (VInt 0)))
    except_bare
    (fun _ => ret VNone).

(** [chan] is [VNone] for the default argument. *)
Definition load_ctrl_config (chan : val) : M unit :=
  let* chan :=
    match chan with VNone => get midi_chan | _ => ret chan end in
  let* tpl := get ctrl_list in
  let* h := get mem in
  match deepcopy_top h tpl with
  | None => raise SystemError
  | Some (copy, h') =>
      modify (set_mem h') >>
      let* cc := get ctrl_config in
      let* cc' := lift (list_setitem cc chan copy) in
      modify (set_ctrl_config cc')
  end.

(** The body for one descriptor [ctrl] on channel [ch].  [self.osc_target]
    is handed to [liblo.send] as it is, set or not, and nothing catches what
    the call raises.  [EvOscSend] records a message that [liblo.send]
    accepted: when the call raises, nothing was sent. *)
Definition send_ctrl (w : world) (ch : Z) (ctrl : val) : M unit :=
  let* h := get mem in
  let* id := lift (py_getitem h ctrl (VInt 1)) in
  match id with
  | VStr path =>
      let* tgt := get osc_target in
      let* v := lift (py_getitem h ctrl (VInt 2)) in
      let* r := lift (py_getitem h ctrl (VInt 3)) in
      lift (w_liblo_send w tgt path (w_get_ctrl_osc_val w v r)) >>
      modify (emit (EvOscSend tgt path (w_get_ctrl_osc_val w v r)))
  | _ =>
      let* pos := lift (py_gt_zero id) in
      if pos then
        let* g := get zyngui in
        match g, id with
        | Some Gui, VInt cc =>
            let* v := lift (py_getitem h ctrl (VInt 2)) in
            let* r := lift (py_getitem h ctrl (VInt 3)) in
            modify (emit (EvMidiControl ch cc (w_get_ctrl_midi_val w v r)))
        | _, _ => raise AttributeError
        end
      else ret tt
  end.

Definition send_screen (w : world) (ch : Z) (ctrlcfg : val) : M unit :=
  let* h := get mem in
  let* group := lift (py_getitem h ctrlcfg (VInt 0)) in
  let* ctrls := lift (py_iter h group) in
  for_each ctrls (send_ctrl w ch).

Definition send_channel (w : world) (ch : Z) : M unit :=
  let* cc := get ctrl_config in
  let* cfg := lift (list_getitem cc (VInt ch)) in
  let* h := get mem in
  let* loaded := lift (py_truthy h cfg) in
  if loaded then
    let* screens := lift (py_iter h cfg) in
    for_each screens (send_screen w ch)
  else ret tt.

Definition range (n : nat) : list Z := map Z.of_nat (seq 0 n).

Definition set_all_ctrls (w : world) : M unit :=
  for_each (range 16) (send_channel w).

(** ** Observing the heap *)

Definition add_trace (evs : list event) (s : state) : state :=
  mk_state (zyngui s) (name s) (command s) (proc s) (queue s) (osc_target s)
    (osc_target_port s) (osc_server s) (osc_server_port s) (osc_server_url s)
    (loading s) (ctrl_config s) (midi_chan s) (ctrl_list s) (mem s)
    (trace s ++ evs).

(** What a reader sees through a value, to a depth: everything a program
    can learn about a list it holds by subscripting [n] times. *)
#[warnings="-register-all"]
Inductive tree :=
  | TNone
  | TInt (z : Z)
  | TStr (s : string)
  | TList (items : list tree)
  | TDeeper
  | TDangling.

Fixpoint view (n : nat) (h : heap) (x : val) : tree :=
  match x with
  | VNone => TNone
  | VInt z => TInt z
  | VStr s => TStr s
  | VRef l =>
      match n with
      | O => TDeeper
      | S n' =>
          match h !! l with
          | Some items => TList (map (view n' h) items)
          | None => TDangling
          end
      end
  end.

(** The lists that can be reached from a value by subscripting. *)
Inductive reach (h : heap) : val → loc → Prop :=
  | reach_here l : reach h (VRef l) l
  | reach_item l items k l' :
      h !! l = Some items → VRef k ∈ items → reach h (VRef k) l' →
      reach h (VRef l) l'.

(** A value refers to a list of the heap, or to none. *)
Definition val_in (h : heap) (x : val) : Prop :=
  match x with VRef l => is_Some (h !! l) | _ => True end.

#[global] Instance val_in_dec h x : Decision (val_in h x).
Proof. destruct x; simpl; apply _. Defined.

(** No list of the heap holds a dangling reference: every Python heap. *)
Definition heap_closed (h : heap) : Prop :=
  map_Forall (fun _ items => Forall (val_in h) items) h.

#[global] Instance heap_closed_dec h : Decision (heap_closed h).
Proof. unfold heap_closed. apply _. Defined.

(** An in-place mutation of the list at [l]: its items become [items]. *)
Definition mutate (l : loc) (items : list val) (s : state) : state :=
  set_mem (<[l:=items]> (mem s)) s.

(** The slot of channel [ch] in the store. *)
Definition slot (s : state) (ch : Z) : val :=
  nth (Z.to_nat ch) (ctrl_config s) VNone.

(** ** The broadcast, as the specification words it

    One message per descriptor of every loaded channel: an OSC send for a
    textual addressing id, a MIDI control change for a positive integer,
    nothing for any other integer. *)
Definition deref (h : heap) (x : val) : list val :=
  match x with
  | VRef l => default [] (h !! l)
  | _ => []
  end.

Definition descriptor_msgs (w : world) (tgt : option address) (ch : Z)
    (d : list val) : list event :=
  match d with
  | _ :: VStr path :: v :: r :: _ =>
      [EvOscSend tgt path (w_get_ctrl_osc_val w v r)]
  | _ :: VInt cc :: v :: r :: _ =>
      if 0 <? cc then [EvMidiControl ch cc (w_get_ctrl_midi_val w v r)]
      else []
  | _ => []
  end.

Definition screen_descriptors (h : heap) (screen : val) : list (list val) :=
  map (deref h) (deref h (hd VNone (deref h screen))).

Definition config_descriptors (h : heap) (cfg : val) : list (list val) :=
  flat_map (screen_descriptors h) (deref h cfg).

Definition channel_msgs (w : world) (s : state) (ch : Z) : list event :=
  flat_map (descriptor_msgs w (osc_target s) ch)
    (config_descriptors (mem s) (slot s ch)).

Definition broadcast_msgs (w : world) (s : state) : list event :=
  flat_map (channel_msgs w s) (range 16).

(** The transport accepts a message. *)
Definition send_accepted (w : world) (e : event) : bool :=
  match e with
  | EvOscSend tgt path v =>
      match w_liblo_send w tgt path v with Ok _ => true | Raise _ => false end
  | _ => true
  end.

Definition sends_accepted (w : world) (msgs : list event) : bool :=
  forallb (send_accepted w) msgs.

(** What becomes of a list of messages handed over one by one: those before
    the first send that the transport refuses go out, and its error ends
    the list. *)
Fixpoint deliver (w : world) (msgs : list event) : list event * option exn :=
  match msgs with
  | [] => ([], None)
  | m :: rest =>
      let go := let '(sent, err) := deliver w rest in (m :: sent, err) in
      match m with
      | EvOscSend tgt path v =>
          match w_liblo_send w tgt path v with
          | Ok _ => go
          | Raise e => ([], Some e)
          end
      | _ => go
      end
  end.

Definition delivered (w : world) (msgs : list event) (s : state)
    : result unit * state :=
  (match (deliver w msgs).2 with None => Ok tt | Some e => Raise e end,
   add_trace (deliver w msgs).1 s).


(** The shape of a configuration: a list of screens, each a list whose
    first item is the list of its descriptors, each descriptor a list
    [name, addressing id, value, range, ...] with a textual or integer id. *)
Definition wf_descriptor (h : heap) (x : val) : bool :=
  match deref h x with
  | _ :: VStr _ :: _ :: _ :: _ => true
  | _ :: VInt _ :: _ :: _ :: _ => true
  | _ => false
  end.

Definition wf_screen (h : heap) (x : val) : bool :=
  match deref h x with
  | VRef g :: _ =>
      match h !! g with
      | Some ds => forallb (wf_descriptor h) ds
      | None => false
      end
  | _ => false
  end.

(** A slot holds [None] until loaded, then a configuration. *)
Definition wf_slot (h : heap) (x : val) : bool :=
  match x with
  | VNone => true
  | VRef l =>
      match h !! l with
      | Some screens => forallb (wf_screen h) screens
      | None => false
      end
  | _ => false
  end.

(** ** Sample worlds and engines *)

(** Every call succeeds, but [os.killpg] and a send to a target that is
    not set. *)
Definition sample_world : world :=
  mk_world
    (fun _ _ => Ok (Popen_object 4242))
    (fun _ _ => Ok tt) (fun _ => Ok tt) ["ok"]
    (fun _ => Ok tt) (fun _ => Ok tt) (fun _ => Raise OSError)
    (fun host port proto => Ok (Address host port proto))
    (fun _ => Ok (ServerThread_object 9000))
    (fun _ => "osc.udp://localhost:9000/")
    (fun d => if String.eqb d "/data/kit"
              then Ok ["piano_1.wav"; "drums.wav"] else Raise OSError)
    (fun _ => true) (fun _ => false)
    (fun v _ => v) (fun v _ => v)
    (fun tgt _ _ => match tgt with
                    | Some _ => Ok tt
                    | None => Raise TypeError
                    end).

(** The OSC port cannot be bound: [liblo.ServerThread] raises
    [liblo.ServerError]. *)
Definition world_port_busy : world :=
  mk_world
    (w_popen sample_world) (w_stdin_write sample_world)
    (w_stdin_flush sample_world) (w_queue_lines sample_world)
    (w_terminate sample_world) (w_kill sample_world) (w_killpg sample_world)
    (w_address sample_world)
    (fun _ => Raise ServerError)
    (w_get_url sample_world) (w_listdir sample_world) (w_isfile sample_world)
    (w_isdir sample_world)
    (w_get_ctrl_osc_val sample_world) (w_get_ctrl_midi_val sample_world)
    (w_liblo_send sample_world).

(** No address can be made: [liblo.Address] raises [liblo.AddressError]. *)
Definition world_no_address : world :=
  mk_world
    (w_popen sample_world) (w_stdin_write sample_world)
    (w_stdin_flush sample_world) (w_queue_lines sample_world)
    (w_terminate sample_world) (w_kill sample_world) (w_killpg sample_world)
    (fun _ _ _ => Raise AddressError)
    (w_server_thread sample_world)
    (w_get_url sample_world) (w_listdir sample_world) (w_isfile sample_world)
    (w_isdir sample_world)
    (w_get_ctrl_osc_val sample_world) (w_get_ctrl_midi_val sample_world)
    (w_liblo_send sample_world).

(** A template of two screens that share the descriptor [volume]. *)
Definition sample_heap : heap :=
  {[ 1%positive := [VRef 2%positive; VRef 3%positive];
     2%positive := [VRef 4%positive; VInt 0; VStr "main"];
     3%positive := [VRef 5%positive; VInt 1; VStr "effects"];
     4%positive := [VRef 6%positive; VRef 7%positive];
     5%positive := [VRef 6%positive; VRef 8%positive];
     6%positive := [VStr "volume"; VInt 7; VInt 96; VInt 127];
     7%positive := [VStr "cutoff"; VStr "/part0/cutoff"; VInt 64; VInt 127];
     8%positive := [VStr "unwired"; VInt 0; VInt 64; VInt 127] ]}.

(** A fresh engine: no process, no OSC, sixteen empty slots. *)
Definition sample_engine : state :=
  mk_state (Some Gui) "sample" (VStr "/usr/bin/synth") None false
    None 6693 None None None 0
    (replicate 16 VNone) (VInt 3) (VRef 1%positive) sample_heap [].

(** The same engine with channel 3 loaded. *)
Definition sample_loaded : state := (load_ctrl_config VNone sample_engine).2.

(** The same engine with a live process. *)
Definition sample_running : state :=
  set_proc (Some (Popen_object 4242)) sample_engine.

(** The number of processes spawned along a trace. *)
Definition is_popen (e : event) : bool :=
  match e with EvPopen _ _ => true | _ => false end.

Definition count_popen (t : list event) : nat :=
  length (List.filter is_popen t).

(** [None], the empty string and the empty list all count as an empty
    result of a command. *)
Definition empty_out (o : cmd_out) : bool :=
  match o with
  | OutNone => true
  | OutStr s => String.eqb s ""
  | OutLines l => Nat.eqb (length l) 0
  end.

(** What the specification asks of [osc_init] when the transport cannot be
    opened: the failure is logged, target and server are unset, the caller
    sees no error, and the end of the busy period is signalled. *)
Definition osc_degraded (r : result unit * state) : Prop :=
  r.1 = Ok tt ∧
  osc_target r.2 = None ∧ osc_server r.2 = None ∧
  (∃ msg, EvLog LError msg ∈ trace r.2) ∧
  last (trace r.2) = Some EvGuiStopLoading.

(** The reading of [get_ctrl_config] in which only the positions
    [0 .. len-1] are in range: any other index on a loaded channel yields
    [None]. *)
Definition in_range (screens : list val) (i : Z) : bool :=
  (0 <=? i) && (i <? Z.of_nat (length screens)).

Definition none_out_of_range (s : state) (i : Z) : Prop :=
  ∀ l screens,
    list_getitem (ctrl_config s) (midi_chan s) = Ok (VRef l) →
    mem s !! l = Some screens →
    in_range screens i = false →
    get_ctrl_config (VInt i) s = (Ok VNone, s).

(** ** The state of a copy in progress

    [h0] is the heap when [copy.deepcopy] was called, [m] the memo and [h]
    the heap now. *)

(** The copy of a value under a memo. *)
Definition ren (m : memo) (x : val) : val :=
  match x with
  | VRef l => match m !! l with Some y => VRef y | None => x end
  | _ => x
  end.

(** The memo knows the list a value refers to. *)
Definition covered (m : memo) (x : val) : Prop :=
  match x with VRef l => is_Some (m !! l) | _ => True end.

(** A value refers to no list, or to one made since [h0]. *)
Definition fresh_in (h0 h : heap) (x : val) : Prop :=
  match x with
  | VRef l => h0 !! l = None ∧ is_Some (h !! l)
  | _ => True
  end.

Record copying (h0 : heap) (m : memo) (h : heap) : Prop := mk_copying {
  cp_old : ∀ l items, h0 !! l = Some items → h !! l = Some items;
  cp_memo : ∀ l y, m !! l = Some y →
      is_Some (h0 !! l) ∧ h0 !! y = None ∧ is_Some (h !! y);
  cp_new : ∀ y items, h0 !! y = None → h !! y = Some items →
      Forall (fresh_in h0 h) items
}.

(** What a step from [(m, h)] to [(m', h')] has done: it kept the lists
    there were, and every list it entered in the memo is new and complete. *)
Record copied (h0 : heap) (m : memo) (h : heap) (m' : memo) (h' : heap)
    : Prop := mk_copied {
  cd_inv : copying h0 m' h';
  cd_memo : m ⊆ m';
  cd_keep : ∀ k items, h !! k = Some items → h' !! k = Some items;
  cd_fresh : ∀ l y, m' !! l = Some y → m !! l = None → h !! y = None;
  cd_done : ∀ l y, m' !! l = Some y → m !! l = None →
      ∃ items, h0 !! l = Some items ∧
               h' !! y = Some (map (ren m') items) ∧
               Forall (covered m') items
}.

(** The part of the state a broadcast reads; sending changes none of it. *)
Definition reads (s0 s : state) : Prop :=
  mem s = mem s0 ∧ osc_target s = osc_target s0 ∧
  zyngui s = zyngui s0 ∧ ctrl_config s = ctrl_config s0.

(** A region is closed when the lists in it refer to lists in it only. *)
Definition region_closed (h : heap) (R : loc → Prop) : Prop :=
  ∀ l items k, R l → h !! l = Some items → VRef k ∈ items → R k.

Definition val_within (R : loc → Prop) (x : val) : Prop :=
  ∀ l, x = VRef l → R l.

(** No list can be reached from both values. *)
Definition shares_nothing (h : heap) (x y : val) : Prop :=
  ∀ l, reach h x l → ¬ reach h y l.

(** Whatever list reachable from [x] is mutated in place, and however, each
    of [others] shows afterwards what it showed before. *)
Definition isolated_from (s : state) (x : val) (others : list val) : Prop :=
  ∀ l items n y, reach (mem s) x l → y ∈ others →
    view n (mem (mutate l items s)) y = view n (mem s) y.

(** A channel is loaded when its slot holds a configuration. *)
Definition loaded (s : state) (ch : val) : Prop :=
  ∃ l, list_getitem (ctrl_config s) ch = Ok (VRef l).


(** ** Directory lists *)

(** [s.rfind(c)]: the index of the last [c], or -1. *)
Fixpoint rfind_from (c : ascii) (s : string) (pos last : Z) : Z :=
  match s with
  | EmptyString => last
  | String a rest =>
      rfind_from c rest (pos + 1) (if Ascii.eqb a c then pos else last)
  end.

Definition rfind (c : ascii) (s : string) : Z := rfind_from c s 0 (-1).

Fixpoint has_non_dot (s : string) : bool :=
  match s with
  | EmptyString => false
  | String a rest => negb (Ascii.eqb a ".") || has_non_dot rest
  end.

(** [os.path.splitext] of [posixpath]: the extension starts at the last dot
    of the last component, unless only dots come before it there. *)
Definition splitext (p : string) : string * string :=
  let sepIndex := rfind "/" p in
  let dotIndex := rfind "." p in
  if (sepIndex <? dotIndex)
     && has_non_dot (substring (Z.to_nat (sepIndex + 1))
                       (Z.to_nat (dotIndex - (sepIndex + 1))) p)
  then (substring 0 (Z.to_nat dotIndex) p,
        substring (Z.to_nat dotIndex)
          (String.length p - Z.to_nat dotIndex) p)
  else (p, EmptyString).

Fixpoint dirlist_files (w : world) (dn dp : string) (fs : list string)
    (acc : list entry * Z) : list entry * Z :=
  match fs with
  | [] => acc
  | f :: rest =>
      let '(res, i) := acc in
      if w_isdir w (join dp f) then
        let title := str_replace_underscore (splitext f).1 in
        let title := if String.eqb dn "_" then title else dn ++ "/" ++ title in
        dirlist_files w dn dp rest
          ((res ++ [mk_entry (join dp f) i title dn])%list, i + 1)
      else dirlist_files w dn dp rest acc
  end.

Fixpoint dirlist_roots (w : world) (dpath : list (string * string))
    (acc : list entry * Z) : M (list entry * Z) :=
  match dpath with
  | [] => ret acc
  | (dn, dp) :: rest =>
      let* fs := lift (w_listdir w dp) in
      dirlist_roots w rest (dirlist_files w dn dp (sorted fs) acc)
  end.

Definition get_dirlist (w : world) (dpath : string + list (string * string))
    : M (list entry) :=
  start_loading >>
  let dpath := match dpath with inl d => [("_", d)] | inr l => l end in
  let* r := dirlist_roots w dpath ([], 0) in
  stop_loading >>
  ret (fst r).

(** The order [sorted] sorts by. *)
Definition str_le (a b : string) : Prop :=
  (String.ltb a b || String.eqb a b)%bool = true.

(** The test a file of root [dp] passes to be listed. *)
Definition listed_file (w : world) (dp fext f : string) : bool :=
  (w_isfile w (join dp f)
   && String.eqb (str_lower (str_last (String.length ("." ++ fext)) f))
        ("." ++ fext))%bool.

(** ** The remote display *)

Abbreviation env := (gmap string string).

(** The characters [str.strip()] removes. *)
Definition is_space (c : ascii) : bool :=
  let n := nat_of_ascii c in
  ((Nat.leb 9 n && Nat.leb n 13) || (Nat.leb 28 n && Nat.leb n 32)
   || Nat.eqb n 133 || Nat.eqb n 160)%bool.

Fixpoint lstrip (s : string) : string :=
  match s with
  | EmptyString => EmptyString
  | String a rest => if is_space a then lstrip rest else s
  end.

(** Dropping the trailing white space: a character stays when it is no
    white space or something stays after it. *)
Fixpoint rstrip (s : string) : string :=
  match s with
  | EmptyString => EmptyString
  | String a rest =>
      match rstrip rest with
      | EmptyString => if is_space a then EmptyString
                       else String a EmptyString
      | r => String a r
      end
  end.

Definition str_strip (s : string) : string := rstrip (lstrip s).

(** [s.split(c)] *)
Fixpoint split_on (c : ascii) (s : string) : list string :=
  match s with
  | EmptyString => [EmptyString]
  | String a rest =>
      if Ascii.eqb a c then EmptyString :: split_on c rest
      else match split_on c rest with
           | h :: t => String a h :: t
           | [] => [String a EmptyString]
           end
  end.

(** One line of the display file: [KEY=VALUE] with a non-empty value. *)
Definition display_line (fvars : env) (line : string) : env :=
  match split_on "=" (str_strip line) with
  | k :: v :: _ => if String.eqb v "" then fvars else <[k:=v]> fvars
  | _ => fvars
  end.

(** [config_remote_display].  [environ] is [os.environ], [file] what
    reading [/root/.remote_display_env] gives, and [command_env] the
    attribute the method assigns: it is passed in and handed back with the
    result. *)
Definition config_remote_display (environ : env)
    (file : result (list string)) (command_env : option env)
    : M (bool * option env) :=
  let fvars : env :=
    match environ !! "ZYNTHIANX" with
    | Some (String a x) => {[ "DISPLAY" := String a x ]}
    | _ =>
        match file with
        | Ok lines => fold_left display_line lines ∅
        | Raise _ => {[ "DISPLAY" := "" ]}
        end
    end in
  match fvars !! "DISPLAY" with
  | Some (String a d) =>
      log LInfo ("REMOTE DISPLAY: " ++ String a d) >>
      ret (true, Some (fvars ∪ environ))
  | _ =>
      log LInfo "NO REMOTE DISPLAY" >>
      ret (false, command_env)
  end.

(** ** More sample worlds and engines *)

(** The command cannot be spawned. *)
Definition world_no_spawn : world :=
  mk_world
    (fun _ _ => Raise OSError) (w_stdin_write sample_world)
    (w_stdin_flush sample_world) (w_queue_lines sample_world)
    (w_terminate sample_world) (w_kill sample_world) (w_killpg sample_world)
    (w_address sample_world) (w_server_thread sample_world)
    (w_get_url sample_world) (w_listdir sample_world) (w_isfile sample_world)
    (w_isdir sample_world)
    (w_get_ctrl_osc_val sample_world) (w_get_ctrl_midi_val sample_world)
    (w_liblo_send sample_world).

(** The pipe to the process is broken. *)
Definition world_broken_pipe : world :=
  mk_world
    (w_popen sample_world) (fun _ _ => Raise OSError)
    (w_stdin_flush sample_world) (w_queue_lines sample_world)
    (w_terminate sample_world) (w_kill sample_world) (w_killpg sample_world)
    (w_address sample_world) (w_server_thread sample_world)
    (w_get_url sample_world) (w_listdir sample_world) (w_isfile sample_world)
    (w_isdir sample_world)
    (w_get_ctrl_osc_val sample_world) (w_get_ctrl_midi_val sample_world)
    (w_liblo_send sample_world).

(** A directory of presets: two directories and a file. *)
Definition world_presets : world :=
  mk_world
    (w_popen sample_world) (w_stdin_write sample_world)
    (w_stdin_flush sample_world) (w_queue_lines sample_world)
    (w_terminate sample_world) (w_kill sample_world) (w_killpg sample_world)
    (w_address sample_world) (w_server_thread sample_world)
    (w_get_url sample_world)
    (fun d => if String.eqb d "/data/presets"
              then Ok ["pads.v2"; "readme.txt"; "bass_lines"]
              else Raise OSError)
    (fun p => String.eqb p "/data/presets/readme.txt")
    (fun p => negb (String.eqb p "/data/presets/readme.txt"))
    (w_get_ctrl_osc_val sample_world) (w_get_ctrl_midi_val sample_world)
    (w_liblo_send sample_world).

(** The engine with a live process and its output queue. *)
Definition sample_queued : state := set_queue true sample_running.

(** The engine with an OSC server. *)
Definition sample_osc : state :=
  set_osc_server (Some (ServerThread_object 9000)) sample_engine.

(** A configuration made of a row of [midi_ctrls], which has three
    items: name, controller number, value. *)
Definition midi_ctrls_heap : heap :=
  {[ 1%positive := [VRef 2%positive];
     2%positive := [VRef 3%positive; VInt 0; VStr "main"];
     3%positive := [VRef 4%positive];
     4%positive := [VStr "volume"; VInt 7; VInt 96] ]}.

(** An engine whose channel 1 holds that configuration. *)
Definition sample_midi_ctrls : state :=
  mk_state (Some Gui) "sample" (VStr "/usr/bin/synth") None false
    None 6693 None None None 0
    (VNone :: VRef 1%positive :: replicate 14 VNone) (VInt 1)
    (VRef 1%positive) midi_ctrls_heap [].

(** The loaded engine with its OSC target set. *)
Definition sample_target : address := Address "localhost" 6693 1.


(** A store of two slots only, the second holding a configuration. *)
Definition sample_short : state :=
  set_osc_target (Some sample_target)
    (set_ctrl_config [VNone; VRef 1%positive] sample_engine).

(** * Properties *)

(** ** The loading counter *)

Ltac run_monad :=
  unfold bind, get, modify, ret, raise, lift, when, log; simpl.

Lemma state_ext (s1 s2 : state) :
  zyngui s1 = zyngui s2 → name s1 = name s2 → command s1 = command s2 →
  proc s1 = proc s2 → queue s1 = queue s2 →
  osc_target s1 = osc_target s2 → osc_target_port s1 = osc_target_port s2 →
  osc_server s1 = osc_server s2 → osc_server_port s1 = osc_server_port s2 →
  osc_server_url s1 = osc_server_url s2 → loading s1 = loading s2 →
  ctrl_config s1 = ctrl_config s2 → midi_chan s1 = midi_chan s2 →
  ctrl_list s1 = ctrl_list s2 → mem s1 = mem s2 → trace s1 = trace s2 →
  s1 = s2.
Proof. destruct s1, s2. simpl. intros. by subst. Qed.

Ltac state_eq :=
  apply state_ext; simpl; try done; try lia;
  try (by rewrite <- !app_assoc).

Lemma start_loading_counter s :
  loading (start_loading s).2 = Z.max 1 (loading s + 1).
Proof.
  unfold start_loading, zyngui_call. run_monad.
  destruct (loading s + 1 <? 1) eqn:E; run_monad;
    destruct (zyngui s) as [[]|]; simpl; lia.
Qed.

Lemma stop_loading_counter s :
  loading (stop_loading s).2 = Z.max 0 (loading s - 1).
Proof.
  unfold stop_loading, zyngui_call. run_monad.
  destruct (loading s - 1 <? 0) eqn:E; run_monad;
    destruct (zyngui s) as [[]|]; simpl; lia.
Qed.

Lemma run_calls_cons c cs s :
  run_calls (c :: cs) s = run_calls cs (busy c s).2.
Proof. reflexivity. Qed.

Lemma run_calls_nonneg cs s : 0 <= loading s → 0 <= loading (run_calls cs s).
Proof.
  revert s. induction cs as [|c cs IH]; intros s Hs; simpl; [done|].
  apply IH. destruct c; simpl.
  - rewrite start_loading_counter. lia.
  - rewrite stop_loading_counter. lia.
Qed.

Lemma run_calls_balanced_from cs : ∀ (d : nat) (base : Z) s,
  0 <= base → loading s = base + Z.of_nat d →
  balanced_from d cs = true → loading (run_calls cs s) = base.
Proof.
  induction cs as [|c cs IH]; intros d base s Hb Hs Hbal; simpl in *.
  - apply Nat.eqb_eq in Hbal. subst d. lia.
  - destruct c; simpl.
    + apply (IH (S d)); [done| |done].
      rewrite start_loading_counter. lia.
    + destruct d as [|d']; [discriminate|].
      apply (IH d'); [done| |done].
      rewrite stop_loading_counter. lia.
Qed.

(** C3. Whatever sequence of [start_loading] and [stop_loading] calls an
    engine receives, its loading counter is non-negative after every prefix
    of the sequence; a nested, balanced sequence brings the counter back to
    the value it had before; three [start_loading] followed by two
    [stop_loading] from a counter of 0 leave it at 1. *)
Theorem loading_counter_nesting (s : state) (Hinit : 0 <= loading s) :
  (∀ cs pre, pre `prefix_of` cs → 0 <= loading (run_calls pre s)) ∧
  (∀ cs, balanced cs = true → loading (run_calls cs s) = loading s) ∧
  (loading s = 0 →
   loading (run_calls [BusyBegin; BusyBegin; BusyBegin; BusyEnd; BusyEnd] s)
   = 1).
Proof.
  split; [|split].
  - intros cs pre _. by apply run_calls_nonneg.
  - intros cs Hbal. apply (run_calls_balanced_from cs 0 (loading s)); [done|lia|done].
  - intros H0. rewrite !run_calls_cons. unfold run_calls, busy.
    rewrite !stop_loading_counter, !start_loading_counter. lia.
Qed.

Lemma loading_counter_nesting_witness :
  (∀ cs pre, pre `prefix_of` cs → 0 <= loading (run_calls pre sample_engine)) ∧
  (∀ cs, balanced cs = true →
     loading (run_calls cs sample_engine) = loading sample_engine) ∧
  (loading sample_engine = 0 →
   loading (run_calls [BusyBegin; BusyBegin; BusyBegin; BusyEnd; BusyEnd]
              sample_engine) = 1).
Proof. apply (loading_counter_nesting sample_engine). simpl. lia. Defined.

(** ** Busy signalling around the operations *)

Lemma start_loading_gui s :
  zyngui s = Some Gui →
  start_loading s
  = (Ok tt, emit EvGuiStartLoading (set_loading (Z.max 1 (loading s + 1)) s)).
Proof.
  intros Hg. unfold start_loading, zyngui_call. run_monad.
  destruct (Z.ltb_spec (loading s + 1) 1); run_monad; rewrite Hg; run_monad;
    unfold emit, set_loading; simpl; do 2 f_equal; lia.
Qed.

Lemma stop_loading_gui s :
  zyngui s = Some Gui →
  stop_loading s
  = (Ok tt, emit EvGuiStopLoading (set_loading (Z.max 0 (loading s - 1)) s)).
Proof.
  intros Hg. unfold stop_loading, zyngui_call. run_monad.
  destruct (Z.ltb_spec (loading s - 1) 0); run_monad; rewrite Hg; run_monad;
    unfold emit, set_loading; simpl; do 2 f_equal; lia.
Qed.

(** ** The process supervisor *)

Lemma start_spawns w sq sh s ph :
  proc s = None → zyngui s = Some Gui →
  w_popen w (command s) sh = Ok ph →
  proc (start w sq sh s).2 = Some ph ∧
  count_popen (trace (start w sq sh s).2) = S (count_popen (trace s)).
Proof.
  intros Hp Hg Hw. unfold start, try_except. run_monad. rewrite Hp. run_monad.
  rewrite start_loading_gui by done. simpl. rewrite Hw. simpl.
  destruct sq; run_monad; unfold proc_get_lines; run_monad;
    rewrite stop_loading_gui by done; simpl;
    (split; [done|]);
    unfold count_popen; rewrite !List.filter_app, !length_app; simpl; lia.
Qed.

(** C5. On an engine whose process handle is set, [start] does nothing: it
    returns with the state, handle and trace included, exactly as it was.
    Hence after a first [start] that spawned the process, a second one
    spawns nothing: one process was created and it is still the one held. *)
Theorem start_twice_one_process (w : world) (sq sh sq' sh' : bool) (s : state) :
  (∀ p, proc s = Some p → start w sq sh s = (Ok tt, s)) ∧
  (∀ ph, proc s = None → zyngui s = Some Gui →
     w_popen w (command s) sh = Ok ph →
     let s1 := (start w sq sh s).2 in
     let s2 := (start w sq' sh' s1).2 in
     start w sq' sh' s1 = (Ok tt, s1) ∧
     proc s2 = Some ph ∧
     count_popen (trace s2) = S (count_popen (trace s))).
Proof.
  assert (Hnoop : ∀ a b t p, proc t = Some p → start w a b t = (Ok tt, t)).
  { intros a b t p Hp. unfold start. run_monad. by rewrite Hp. }
  split; [by apply Hnoop|].
  intros ph Hp Hg Hw s1 s2.
  destruct (start_spawns w sq sh s ph Hp Hg Hw) as [H1 H2].
  assert (Hs : start w sq' sh' s1 = (Ok tt, s1)) by (by apply (Hnoop _ _ _ ph)).
  subst s2. rewrite Hs. simpl. by repeat split.
Qed.

Lemma start_twice_one_process_witness :
  start sample_world false false sample_running = (Ok tt, sample_running) ∧
  let s1 := (start sample_world true false sample_engine).2 in
  let s2 := (start sample_world false false s1).2 in
  start sample_world false false s1 = (Ok tt, s1) ∧
  proc s2 = Some (Popen_object 4242) ∧
  count_popen (trace s2) = S (count_popen (trace sample_engine)).
Proof.
  destruct (start_twice_one_process sample_world false false false false
              sample_running) as [Ha _].
  destruct (start_twice_one_process sample_world true false false false
              sample_engine) as [_ Hb].
  split.
  - apply (Ha (Popen_object 4242)). reflexivity.
  - apply (Hb (Popen_object 4242)); reflexivity.
Defined.

(** C6. Without a live process [proc_cmd] returns [None], an empty result,
    whatever the command and the timeout; it raises nothing and leaves the
    engine as it was. *)
Theorem proc_cmd_no_process (w : world) (cmd : string) (tout : Z) (s : state) :
  proc s = None →
  proc_cmd w cmd tout s = (Ok OutNone, s) ∧ empty_out OutNone = true.
Proof.
  intros Hp. unfold proc_cmd. run_monad. by rewrite Hp.
Qed.

Lemma proc_cmd_no_process_witness :
  proc_cmd sample_world "load bank" 100 sample_engine
    = (Ok OutNone, sample_engine) ∧ empty_out OutNone = true.
Proof. apply (proc_cmd_no_process sample_world). reflexivity. Defined.

Lemma start_balanced w sq sh s :
  zyngui s = Some Gui → 0 <= loading s →
  (start w sq sh s).1 = Ok tt ∧ loading (start w sq sh s).2 = loading s.
Proof.
  intros Hg Hl. unfold start, try_except. run_monad.
  destruct (proc s); run_monad; [done|].
  rewrite start_loading_gui by done. simpl.
  destruct (w_popen w (command s) sh); simpl.
  - destruct sq; run_monad; unfold proc_get_lines; run_monad;
      rewrite stop_loading_gui by done; simpl; split; [done|lia|done|lia].
  - rewrite stop_loading_gui by done; simpl; split; [done|lia].
Qed.

Lemma stop_balanced w wait s :
  zyngui s = Some Gui → 0 <= loading s →
  (stop w wait s).1 = Ok tt ∧ loading (stop w wait s).2 = loading s.
Proof.
  intros Hg Hl. unfold stop, try_except. run_monad.
  destruct (proc s) as [ph|]; run_monad; [|done].
  rewrite start_loading_gui by done. simpl.
  destruct (w_terminate w ph); simpl.
  - destruct (0 <? wait); run_monad;
      destruct (w_kill w ph); simpl;
      try destruct (w_killpg w (pid_of ph)); simpl;
      rewrite stop_loading_gui by done; simpl; (split; [done|lia]).
  - rewrite stop_loading_gui by done; simpl; split; [done|lia].
Qed.

Lemma proc_cmd_balanced w cmd tout s :
  zyngui s = Some Gui → 0 <= loading s →
  (∃ out, (proc_cmd w cmd tout s).1 = Ok out) ∧
  loading (proc_cmd w cmd tout s).2 = loading s.
Proof.
  intros Hg Hl. unfold proc_cmd, try_except. run_monad.
  destruct (proc s) as [ph|]; run_monad; [|eauto].
  rewrite start_loading_gui by done. simpl.
  destruct (w_stdin_write w ph (cmd ++ newline)); simpl;
    [destruct (w_stdin_flush w ph); simpl;
     [unfold proc_get_lines; run_monad; destruct (queue s); simpl|]|];
    rewrite stop_loading_gui by done; simpl; (split; [eauto|lia]).
Qed.

(** C4. [get_filelist] increments the counter on entry and decrements it
    only after its loops: when listing a directory raises, the error leaves
    through the function and the counter stays one above its value at
    entry, without any end-of-busy signal. *)
Theorem get_filelist_error_keeps_busy (w : world) (d fext : string)
    (e : exn) (s : state) :
  zyngui s = Some Gui → 0 <= loading s →
  w_listdir w d = Raise e →
  get_filelist w (inl d) fext s
  = (Raise e, emit EvGuiStartLoading (set_loading (loading s + 1) s)) ∧
  loading (get_filelist w (inl d) fext s).2 = loading s + 1.
Proof.
  intros Hg Hl Hw. unfold get_filelist. run_monad.
  rewrite start_loading_gui by done. simpl. rewrite Hw. simpl.
  replace (Z.max 1 (loading s + 1)) with (loading s + 1) by lia. done.
Qed.

Lemma get_filelist_error_keeps_busy_witness :
  get_filelist sample_world (inl "/nowhere") "wav" sample_engine
  = (Raise OSError,
     emit EvGuiStartLoading (set_loading (loading sample_engine + 1)
                               sample_engine)) ∧
  loading (get_filelist sample_world (inl "/nowhere") "wav" sample_engine).2
  = loading sample_engine + 1.
Proof.
  apply (get_filelist_error_keeps_busy sample_world "/nowhere" "wav" OSError);
    [reflexivity | simpl; lia | reflexivity].
Defined.

(** ** The OSC transport *)

(** C7. When it is the server that cannot be created -- [liblo.ServerThread]
    raises an error that is no [AddressError], as [ServerError] does for a
    port that cannot be bound -- the handler of [osc_init] lets the error
    through: the caller gets it, the target made just before stays set, no
    failure is logged, no end of the busy period is signalled and the
    loading counter stays one above its value.  Nothing of what is asked of
    a failed [osc_init] holds. *)
Theorem osc_init_server_error_leaks (w : world) (proto : Z) (a : address)
    (e : exn) (s : state) :
  zyngui s = Some Gui → 0 <= loading s →
  w_address w "localhost" (osc_target_port s) proto = Ok a →
  w_server_thread w proto = Raise e → e ≠ AddressError →
  osc_init w proto s
  = (Raise e,
     add_trace [EvGuiStartLoading; EvLog LInfo "OSC target in port"]
       (set_osc_target (Some a) (set_loading (loading s + 1) s))) ∧
  ¬ osc_degraded (osc_init w proto s).
Proof.
  intros Hg Hl Ha Hsv He.
  assert (Hr : osc_init w proto s
               = (Raise e,
                  add_trace [EvGuiStartLoading;
                             EvLog LInfo "OSC target in port"]
                    (set_osc_target (Some a)
                       (set_loading (loading s + 1) s)))).
  { unfold osc_init, try_except. run_monad.
    rewrite start_loading_gui by done. simpl. rewrite Ha. simpl.
    rewrite Hsv. simpl.
    destruct e; try congruence; simpl; f_equal; state_eq. }
  split; [done|]. rewrite Hr. intros (H & _). discriminate H.
Qed.

Lemma osc_init_server_error_leaks_witness :
  osc_init world_port_busy 1 sample_engine
  = (Raise ServerError,
     add_trace [EvGuiStartLoading; EvLog LInfo "OSC target in port"]
       (set_osc_target (Some (Address "localhost" 6693 1))
          (set_loading (loading sample_engine + 1) sample_engine))) ∧
  ¬ osc_degraded (osc_init world_port_busy 1 sample_engine).
Proof.
  apply (osc_init_server_error_leaks world_port_busy 1
           (Address "localhost" 6693 1) ServerError sample_engine);
    [reflexivity | simpl; lia | reflexivity | reflexivity | discriminate].
Defined.

(** ** Directory listings *)

Lemma sorted_piano_drums l :
  Permutation l ["piano_1.wav"; "drums.wav"] →
  sorted l = ["drums.wav"; "piano_1.wav"].
Proof.
  intros Hp. apply Permutation_sym in Hp.
  apply Permutation_length_2_inv in Hp as [-> | ->]; reflexivity.
Qed.

(** C9. Under a root labelled [kit] that holds the files [piano_1.wav] and
    [drums.wav], in whatever order the directory yields them,
    [get_filelist] with extension [wav] returns the entry of [drums.wav]
    with index 0 and title [kit/drums], then the entry of [piano_1.wav] with
    index 1 and title [kit/piano 1], both with root [kit]. *)
Theorem get_filelist_kit (w : world) (dp : string) (l : list string)
    (s : state) :
  zyngui s = Some Gui →
  w_listdir w dp = Ok l →
  Permutation l ["piano_1.wav"; "drums.wav"] →
  w_isfile w (join dp "drums.wav") = true →
  w_isfile w (join dp "piano_1.wav") = true →
  (get_filelist w (inr [("kit", dp)]) "wav" s).1
  = Ok [mk_entry (join dp "drums.wav") 0 "kit/drums" "kit";
        mk_entry (join dp "piano_1.wav") 1 "kit/piano 1" "kit"].
Proof.
  intros Hg Hl Hp Hd Hpi. unfold get_filelist. run_monad.
  rewrite start_loading_gui by done. cbn [fst snd filelist_roots].
  unfold bind, lift. rewrite Hl. rewrite (sorted_piano_drums l Hp).
  cbn [filelist_files]. rewrite Hd.
  change (str_lower (str_last (String.length ".wav") "drums.wav") =? ".wav")%string
    with true.
  cbn [andb]. cbn [filelist_files]. rewrite Hpi.
  change (str_lower (str_last (String.length ".wav") "piano_1.wav") =? ".wav")%string
    with true.
  cbn [andb]. unfold ret. rewrite stop_loading_gui by done. reflexivity.
Qed.

Lemma get_filelist_kit_witness :
  (get_filelist sample_world (inr [("kit", "/data/kit")]) "wav"
     sample_engine).1
  = Ok [mk_entry (join "/data/kit" "drums.wav") 0 "kit/drums" "kit";
        mk_entry (join "/data/kit" "piano_1.wav") 1 "kit/piano 1" "kit"].
Proof.
  apply (get_filelist_kit sample_world "/data/kit"
           ["piano_1.wav"; "drums.wav"] sample_engine);
    [reflexivity | reflexivity | apply Permutation_refl
    | reflexivity | reflexivity].
Defined.

(** ** Broadcasting the controller values *)

Arguments list_getitem : simpl never.

Lemma add_trace_nil s : add_trace [] s = s.
Proof. destruct s. unfold add_trace. simpl. by rewrite app_nil_r. Qed.

Lemma add_trace_app a b s : add_trace b (add_trace a s) = add_trace (a ++ b) s.
Proof. unfold add_trace. simpl. by rewrite app_assoc. Qed.

Lemma norm_index_nat (n k : nat) :
  (k < n)%nat → norm_index n (Z.of_nat k) = Some k.
Proof.
  intros Hk. unfold norm_index.
  destruct (Z.leb_spec 0 (Z.of_nat k)); [|lia].
  destruct (Z.ltb_spec (Z.of_nat k) (Z.of_nat n)); [|lia].
  simpl. by rewrite Nat2Z.id.
Qed.

Lemma list_getitem_nat (l : list val) (k : nat) v :
  l !! k = Some v → list_getitem l (VInt (Z.of_nat k)) = Ok v.
Proof.
  intros Hl. unfold list_getitem.
  rewrite norm_index_nat by (by eapply lookup_lt_Some). by rewrite Hl.
Qed.

Lemma list_getitem_lit (l : list val) (k : nat) (z : Z) v :
  z = Z.of_nat k → l !! k = Some v → list_getitem l (VInt z) = Ok v.
Proof. intros ->. apply list_getitem_nat. Qed.

Lemma reads_add_trace s0 s evs : reads s0 s → reads s0 (add_trace evs s).
Proof. by intros (?&?&?&?). Qed.

Lemma deliver_app w a b :
  deliver w (a ++ b)%list
  = match deliver w a with
    | (sa, None) => let '(sb, e) := deliver w b in ((sa ++ sb)%list, e)
    | (sa, Some e) => (sa, Some e)
    end.
Proof.
  induction a as [|m a IH]; simpl; [by destruct (deliver w b)|].
  rewrite IH.
  destruct m; try (destruct (w_liblo_send w target path value); [|done]);
    destruct (deliver w a) as [sa [e|]]; try done;
    by destruct (deliver w b).
Qed.

Lemma deliver_accepted w msgs :
  sends_accepted w msgs = true → deliver w msgs = (msgs, None).
Proof.
  induction msgs as [|m msgs IH]; [done|]. unfold sends_accepted. simpl.
  intros [Hm Hr]%andb_prop. rewrite IH by done.
  destruct m; try done. simpl in Hm.
  by destruct (w_liblo_send w target path value).
Qed.

Lemma deliver_refused w pre tgt path v post e :
  sends_accepted w pre = true → w_liblo_send w tgt path v = Raise e →
  deliver w (pre ++ EvOscSend tgt path v :: post)%list = (pre, Some e).
Proof.
  intros Hpre He. rewrite deliver_app, deliver_accepted by done. simpl.
  by rewrite He, app_nil_r.
Qed.

Lemma delivered_nil w s : delivered w [] s = (Ok tt, s).
Proof. unfold delivered. simpl. by rewrite add_trace_nil. Qed.

Lemma delivered_app w a b s :
  delivered w (a ++ b)%list s
  = match delivered w a s with
    | (Ok _, s') => delivered w b s'
    | (Raise e, s') => (Raise e, s')
    end.
Proof.
  unfold delivered. rewrite deliver_app.
  destruct (deliver w a) as [sa [e|]]; simpl; [done|].
  destruct (deliver w b) as [sb e']; simpl. by rewrite add_trace_app.
Qed.

Lemma for_each_delivered {A} (w : world) (s0 : state) (f : A → list event)
    (body : A → M unit) (xs : list A) :
  (∀ x s, x ∈ xs → reads s0 s → body x s = delivered w (f x) s) →
  ∀ s, reads s0 s →
    for_each xs body s = delivered w (flat_map f xs) s.
Proof.
  induction xs as [|x xs IH]; intros Hbody s Hs; simpl.
  - by rewrite delivered_nil.
  - unfold bind. rewrite delivered_app, Hbody; [|left|done].
    assert (Hr : reads s0 (delivered w (f x) s).2)
      by (by apply reads_add_trace).
    destruct (delivered w (f x) s) as [[[]|e] s1]; [|done].
    apply IH; [|done]. intros y t Hy. apply Hbody. by right.
Qed.

Lemma send_ctrl_delivered w s0 ch ctrl s :
  zyngui s0 = Some Gui → wf_descriptor (mem s0) ctrl = true → reads s0 s →
  send_ctrl w ch ctrl s
  = delivered w (descriptor_msgs w (osc_target s0) ch (deref (mem s0) ctrl)) s.
Proof.
  intros Hg Hwf (Hm & Ht & Hz & _). unfold wf_descriptor in Hwf.
  unfold send_ctrl. run_monad. rewrite Hm.
  destruct ctrl as [| | |l]; simpl in Hwf |- *; try discriminate.
  destruct (mem s0 !! l) as [items|] eqn:Hl; simpl in Hwf |- *;
    [|discriminate].
  destruct items as [|nm [|id [|v [|r rest]]]]; try discriminate;
    try (destruct id; discriminate).
  rewrite (list_getitem_lit _ 1%nat 1 id) by done.
  destruct id as [|cc|path|]; try discriminate; simpl.
  - destruct (0 <? cc); simpl; [|by rewrite delivered_nil].
    rewrite Hz, Hg.
    rewrite (list_getitem_lit _ 2%nat 2 v) by done.
    by rewrite (list_getitem_lit _ 3%nat 3 r) by done.
  - rewrite (list_getitem_lit _ 2%nat 2 v) by done.
    rewrite (list_getitem_lit _ 3%nat 3 r) by done.
    rewrite Ht. unfold delivered. simpl.
    destruct (w_liblo_send w (osc_target s0) path (w_get_ctrl_osc_val w v r))
      as [[]|e]; simpl; [done|by rewrite add_trace_nil].
Qed.

Lemma send_screen_delivered w s0 ch screen s :
  zyngui s0 = Some Gui → wf_screen (mem s0) screen = true → reads s0 s →
  send_screen w ch screen s
  = delivered w (flat_map (descriptor_msgs w (osc_target s0) ch)
                   (screen_descriptors (mem s0) screen)) s.
Proof.
  intros Hg Hwf Hs. pose proof Hs as (Hm & _).
  unfold wf_screen in Hwf. unfold send_screen, screen_descriptors.
  run_monad. rewrite Hm.
  destruct screen as [| | |l]; simpl in Hwf |- *; try discriminate.
  destruct (mem s0 !! l) as [items|] eqn:Hl; simpl in Hwf |- *;
    [|discriminate].
  destruct items as [|g rest]; [discriminate|].
  destruct g as [| | |lg]; try discriminate.
  rewrite (list_getitem_nat _ 0 (VRef lg)) by done. simpl.
  destruct (mem s0 !! lg) as [ds|] eqn:Hg'; [|discriminate]. simpl.
  rewrite flat_map_concat_map, map_map, <- flat_map_concat_map.
  apply (for_each_delivered w s0); [|done].
  intros x t Hx Ht. apply send_ctrl_delivered; [done| |done].
  rewrite forallb_forall in Hwf. apply Hwf. by apply list_elem_of_In.
Qed.

Lemma slot_getitem s (ch : nat) :
  (ch < length (ctrl_config s))%nat →
  list_getitem (ctrl_config s) (VInt (Z.of_nat ch))
  = Ok (slot s (Z.of_nat ch)).
Proof.
  intros Hch. apply list_getitem_nat. unfold slot. rewrite Nat2Z.id.
  apply lookup_lt_is_Some_2 in Hch as [v Hv].
  rewrite Hv. f_equal. symmetry. by apply nth_lookup_Some with (d := VNone).
Qed.

Lemma flat_map_flat_map {A B C} (f : B → list C) (g : A → list B) l :
  flat_map f (flat_map g l) = flat_map (fun x => flat_map f (g x)) l.
Proof.
  induction l as [|x l IH]; simpl; [done|].
  by rewrite flat_map_app, IH.
Qed.

Lemma send_channel_delivered w s0 (ch : nat) s :
  zyngui s0 = Some Gui → (ch < length (ctrl_config s0))%nat →
  wf_slot (mem s0) (slot s0 (Z.of_nat ch)) = true → reads s0 s →
  send_channel w (Z.of_nat ch) s
  = delivered w (channel_msgs w s0 (Z.of_nat ch)) s.
Proof.
  intros Hg Hch Hwf Hs. pose proof Hs as (Hm & _ & _ & Hc).
  unfold send_channel, channel_msgs, config_descriptors.
  rewrite flat_map_flat_map.
  unfold bind, get, lift. rewrite Hc, slot_getitem by done. rewrite Hm.
  unfold wf_slot in Hwf.
  destruct (slot s0 (Z.of_nat ch)) as [| | |l]; try discriminate.
  - simpl. by rewrite delivered_nil.
  - unfold py_truthy, py_iter, deref.
    destruct (mem s0 !! l) as [screens|] eqn:Hl; [|discriminate].
    cbn [default].
    assert (Hfe : for_each screens (send_screen w (Z.of_nat ch)) s
                  = delivered w
                      (flat_map
                         (fun sc =>
                            flat_map (descriptor_msgs w (osc_target s0)
                                        (Z.of_nat ch))
                              (screen_descriptors (mem s0) sc)) screens) s).
    { apply (for_each_delivered w s0); [|done].
      intros x t Hx Ht. apply send_screen_delivered; [done| |done].
      rewrite forallb_forall in Hwf. apply Hwf. by apply list_elem_of_In. }
    destruct screens as [|sc rest]; [simpl; by rewrite delivered_nil|].
    cbn [length Nat.eqb negb]. exact Hfe.
Qed.

(** The channels [0 .. n-1] of a store whose slots are empty or well
    shaped: the messages go out in order up to the first send that the
    transport refuses. *)
Lemma send_channels_delivered w s (n : nat) :
  (n <= length (ctrl_config s))%nat → zyngui s = Some Gui →
  forallb (wf_slot (mem s)) (ctrl_config s) = true →
  for_each (range n) (send_channel w) s
  = delivered w (flat_map (channel_msgs w s) (range n)) s.
Proof.
  intros Hn Hg Hwf. apply (for_each_delivered w s); [|done].
  intros x t Hx Ht. unfold range in Hx.
  apply list_elem_of_In, in_map_iff in Hx as (k & <- & Hk).
  apply in_seq in Hk.
  apply send_channel_delivered; [done|lia| |done].
  rewrite forallb_forall in Hwf. apply Hwf.
  unfold slot. rewrite Nat2Z.id. apply nth_In. lia.
Qed.




(** ** Reading a channel's configuration *)

Lemma norm_index_nonneg (n : nat) (i : Z) :
  0 <= i < Z.of_nat n → norm_index n i = Some (Z.to_nat i).
Proof.
  intros Hi. unfold norm_index.
  destruct (Z.leb_spec 0 i); [|lia].
  by destruct (Z.ltb_spec i (Z.of_nat n)); [|lia].
Qed.

Lemma norm_index_negative (n : nat) (i : Z) :
  - Z.of_nat n <= i < 0 → norm_index n i = Some (Z.to_nat (Z.of_nat n + i)).
Proof.
  intros Hi. unfold norm_index.
  destruct (Z.leb_spec 0 i); [lia|]. simpl.
  destruct (Z.leb_spec (- Z.of_nat n) i); [|lia].
  by destruct (Z.ltb_spec i 0); [|lia].
Qed.

Lemma norm_index_outside (n : nat) (i : Z) :
  i < - Z.of_nat n ∨ Z.of_nat n <= i → norm_index n i = None.
Proof.
  intros Hi. unfold norm_index.
  destruct (Z.leb_spec 0 i), (Z.ltb_spec i (Z.of_nat n)),
    (Z.leb_spec (- Z.of_nat n) i), (Z.ltb_spec i 0); simpl; try done; lia.
Qed.

Lemma get_ctrl_config_at s l screens i k ls g rest :
  list_getitem (ctrl_config s) (midi_chan s) = Ok (VRef l) →
  mem s !! l = Some screens →
  norm_index (length screens) i = Some k →
  screens !! k = Some (VRef ls) → mem s !! ls = Some (g :: rest) →
  get_ctrl_config (VInt i) s = (Ok g, s).
Proof.
  intros Hc Hl Hn Hk Hs. unfold get_ctrl_config, try_except. run_monad.
  rewrite Hc. simpl. rewrite Hl. unfold list_getitem at 1.
  rewrite Hn, Hk. simpl. rewrite Hs.
  by rewrite (list_getitem_lit _ 0%nat 0 g).
Qed.

(** C8. [get_ctrl_config] never raises and never changes the engine,
    whatever the index, integer or not.  On an unloaded channel (the store
    has no slot for it, or the slot holds [None]) it returns [None].  On a
    loaded channel with [n] screens it returns the descriptor group of the
    screen at position [i] for [0 <= i < n], the group of the screen at
    position [n + i] for [-n <= i < 0], and [None] for every other
    integer. *)
Theorem get_ctrl_config_lookup (s : state) :
  (∀ i, ∃ v, get_ctrl_config i s = (Ok v, s)) ∧
  ((∃ e, list_getitem (ctrl_config s) (midi_chan s) = Raise e) ∨
   list_getitem (ctrl_config s) (midi_chan s) = Ok VNone →
   ∀ i, get_ctrl_config i s = (Ok VNone, s)) ∧
  (∀ l screens,
     list_getitem (ctrl_config s) (midi_chan s) = Ok (VRef l) →
     mem s !! l = Some screens →
     let n := Z.of_nat (length screens) in
     (∀ i ls g rest, 0 <= i < n →
        screens !! Z.to_nat i = Some (VRef ls) →
        mem s !! ls = Some (g :: rest) →
        get_ctrl_config (VInt i) s = (Ok g, s)) ∧
     (∀ i ls g rest, - n <= i < 0 →
        screens !! Z.to_nat (n + i) = Some (VRef ls) →
        mem s !! ls = Some (g :: rest) →
        get_ctrl_config (VInt i) s = (Ok g, s)) ∧
     (∀ i, i < - n ∨ n <= i →
        get_ctrl_config (VInt i) s = (Ok VNone, s))).
Proof.
  split; [|split].
  - intros i. unfold get_ctrl_config, try_except. run_monad.
    destruct (list_getitem (ctrl_config s) (midi_chan s)) as [cfg|];
      simpl; [|eauto].
    destruct (py_getitem (mem s) cfg i) as [screen|]; simpl; [|eauto].
    destruct (py_getitem (mem s) screen (VInt 0)); simpl; eauto.
  - intros H i. unfold get_ctrl_config, try_except. run_monad.
    destruct H as [[e ->] | ->]; by simpl.
  - intros l screens Hc Hl n. split; [|split].
    + intros i ls g rest Hi Hk Hs.
      eapply get_ctrl_config_at; eauto. by apply norm_index_nonneg.
    + intros i ls g rest Hi Hk Hs.
      eapply get_ctrl_config_at; eauto. by apply norm_index_negative.
    + intros i Hi. unfold get_ctrl_config, try_except. run_monad.
      rewrite Hc. simpl. rewrite Hl. unfold list_getitem at 1.
      by rewrite norm_index_outside.
Qed.

Lemma get_ctrl_config_lookup_witness :
  get_ctrl_config (VInt 1) sample_loaded
    = (Ok (VRef 15%positive), sample_loaded) ∧
  get_ctrl_config (VInt (-2)) sample_loaded
    = (Ok (VRef 11%positive), sample_loaded) ∧
  get_ctrl_config (VInt 2) sample_loaded = (Ok VNone, sample_loaded) ∧
  get_ctrl_config (VInt 0) sample_engine = (Ok VNone, sample_engine).
Proof.
  destruct (get_ctrl_config_lookup sample_loaded) as (_ & _ & Hl).
  destruct (Hl 9%positive [VRef 10%positive; VRef 14%positive])
    as (Hin & Hneg & Hout); [by vm_compute..|].
  destruct (get_ctrl_config_lookup sample_engine) as (_ & Hun & _).
  split; [|split; [|split]].
  - apply (Hin 1 14%positive (VRef 15%positive) [VInt 1; VStr "effects"]);
      [simpl; lia | by vm_compute..].
  - apply (Hneg (-2) 10%positive (VRef 11%positive) [VInt 0; VStr "main"]);
      [simpl; lia | by vm_compute..].
  - apply (Hout 2). simpl. lia.
  - apply Hun. right. by vm_compute.
Defined.

(** Index [-1] lies outside the positions [0 .. 1] of the two screens of
    channel 3, yet the result is the descriptor group of the last screen,
    not [None]. *)
Lemma get_ctrl_config_negative_counterexample :
  get_ctrl_config (VInt (-1)) sample_loaded
    = (Ok (VRef 15%positive), sample_loaded) ∧
  ¬ none_out_of_range sample_loaded (-1).
Proof.
  assert (H : get_ctrl_config (VInt (-1)) sample_loaded
              = (Ok (VRef 15%positive), sample_loaded)) by (by vm_compute).
  split; [done|].
  intros Hc.
  specialize (Hc 9%positive [VRef 10%positive; VRef 14%positive]).
  rewrite H in Hc.
  assert (Hf : (Ok (VRef 15%positive), sample_loaded)
               = (Ok VNone, sample_loaded)) by (apply Hc; by vm_compute).
  discriminate Hf.
Qed.

(** ** Deep copies *)

Lemma ren_mono m m' x :
  covered m x → m ⊆ m' → ren m' x = ren m x ∧ covered m' x.
Proof.
  destruct x as [| | |l]; simpl; try done.
  intros [y Hy] Hsub.
  pose proof (lookup_weaken _ _ _ _ Hy Hsub) as Hy'.
  by rewrite Hy, Hy'.
Qed.

Lemma map_ren_mono m m' (xs : list val) :
  Forall (covered m) xs → m ⊆ m' →
  map (ren m') xs = map (ren m) xs ∧ Forall (covered m') xs.
Proof.
  intros Hc Hsub. induction Hc as [|x xs Hx _ [IH1 IH2]]; simpl; [done|].
  destruct (ren_mono m m' x Hx Hsub) as [-> ?]. rewrite IH1.
  split; [done|]. by constructor.
Qed.

Lemma fresh_in_mono h0 h h' x :
  (∀ k items, h !! k = Some items → is_Some (h' !! k)) →
  fresh_in h0 h x → fresh_in h0 h' x.
Proof.
  intros Hk. destruct x as [| | |l]; simpl; try done.
  intros [? [items Hi]]. split; [done|]. by eapply Hk.
Qed.

Lemma copied_refl h0 m h : copying h0 m h → copied h0 m h m h.
Proof.
  intros Hc. split; try done.
  - intros l y H1 H2. congruence.
  - intros l y H1 H2. congruence.
Qed.

Lemma copying_alloc h0 m h l items :
  copying h0 m h → h0 !! l = Some items → m !! l = None →
  h !! fresh (dom h) = None ∧ h0 !! fresh (dom h) = None ∧
  copying h0 (<[l:=fresh (dom h)]> m) (<[fresh (dom h):=[]]> h).
Proof.
  intros [Hold Hmemo Hnew] Hl Hm. set (y := fresh (dom h)).
  assert (Hy : h !! y = None) by (apply not_elem_of_dom, is_fresh).
  assert (Hy0 : h0 !! y = None).
  { destruct (h0 !! y) as [its|] eqn:E; [|done].
    apply Hold in E. congruence. }
  split; [done|]. split; [done|]. split.
  - intros k its Hk. rewrite lookup_insert_ne; [by apply Hold|].
    intros <-. congruence.
  - intros k z Hk. destruct (decide (k = l)) as [->|Hne].
    + rewrite lookup_insert_eq in Hk. inversion Hk; subst z.
      rewrite lookup_insert_eq. eauto.
    + rewrite lookup_insert_ne in Hk by done.
      destruct (Hmemo k z Hk) as (? & ? & Hz). repeat split; try done.
      rewrite lookup_insert_ne; [done|]. intros <-.
      destruct Hz as [? Hz]. congruence.
  - intros z its Hz0 Hz. destruct (decide (z = y)) as [->|Hne].
    + rewrite lookup_insert_eq in Hz. inversion Hz. constructor.
    + rewrite lookup_insert_ne in Hz by done.
      eapply Forall_impl; [by eapply Hnew|].
      intros x. apply fresh_in_mono. intros k its' Hk.
      destruct (decide (k = y)) as [->|?]; [congruence|].
      rewrite lookup_insert_ne by done. eauto.
Qed.

Lemma copying_append h0 m h y a items :
  copying h0 m h → h0 !! y = None → h !! y = Some items →
  fresh_in h0 h a →
  copying h0 m (heap_append y a h) ∧
  heap_append y a h !! y = Some (items ++ [a])%list ∧
  (∀ k its, k ≠ y → h !! k = Some its →
     heap_append y a h !! k = Some its).
Proof.
  intros [Hold Hmemo Hnew] Hy0 Hy Ha. unfold heap_append. rewrite Hy.
  assert (Hmono : ∀ k (its : list val), h !! k = Some its →
            is_Some (<[y:=(items ++ [a])%list]> h !! k)).
  { intros k its Hk. destruct (decide (k = y)) as [->|?].
    - rewrite lookup_insert_eq. eauto.
    - rewrite lookup_insert_ne by done. eauto. }
  split; [split|split].
  - intros k its Hk. rewrite lookup_insert_ne; [by apply Hold|].
    intros <-. congruence.
  - intros k z Hk. destruct (Hmemo k z Hk) as (? & ? & [its Hz]).
    repeat split; try done. by eapply Hmono.
  - intros z its Hz0 Hz. destruct (decide (z = y)) as [->|Hne].
    + rewrite lookup_insert_eq in Hz. inversion Hz; subst its.
      apply Forall_app. split.
      * eapply Forall_impl; [by eapply Hnew|].
        intros x. by apply fresh_in_mono.
      * constructor; [|constructor]. revert Ha. by apply fresh_in_mono.
    + rewrite lookup_insert_ne in Hz by done.
      eapply Forall_impl; [by eapply Hnew|].
      intros x. by apply fresh_in_mono.
  - by rewrite lookup_insert_eq.
  - intros k its Hne Hk. by rewrite lookup_insert_ne.
Qed.

Lemma ren_fresh h0 m h a :
  copying h0 m h → covered m a → fresh_in h0 h (ren m a).
Proof.
  intros [_ Hmemo _]. destruct a as [| | |l]; simpl; try done.
  intros [y Hy]. rewrite Hy. simpl.
  by destruct (Hmemo l y Hy) as (_ & ? & ?).
Qed.

Lemma memo_size_lt h0 (m : memo) h l items :
  copying h0 m h → h0 !! l = Some items → m !! l = None →
  (size m < size h0)%nat.
Proof.
  intros [_ Hmemo _] Hl Hm. rewrite <- !size_dom.
  apply subset_size. split.
  - intros k Hk. apply elem_of_dom in Hk as [y Hy].
    apply elem_of_dom. by destruct (Hmemo k y Hy) as (? & _).
  - intros Hsub. assert (l ∈ dom m) as Hin.
    { apply Hsub. apply elem_of_dom. eauto. }
    apply elem_of_dom in Hin as [? ?]. congruence.
Qed.

Section deepcopy_correct.
Variable h0 : heap.
Hypothesis Hclosed : heap_closed h0.

Lemma copy_items_spec (f : nat) (y : loc) :
  (∀ x m h, copying h0 m h → val_in h0 x →
     (size h0 < f + size m)%nat →
     ∃ x' m' h', deepcopy f x (m, h) = Some (x', (m', h')) ∧
       copied h0 m h m' h' ∧ x' = ren m' x ∧ covered m' x) →
  ∀ rest done mc hc,
    copying h0 mc hc → Forall (val_in h0) rest →
    (size h0 < f + size mc)%nat →
    h0 !! y = None → hc !! y = Some (map (ren mc) done) →
    Forall (covered mc) done →
    ∃ m' h',
      copy_items (deepcopy f) y rest (mc, hc) = Some (m', h') ∧
      copying h0 m' h' ∧ mc ⊆ m' ∧
      (∀ k its, k ≠ y → hc !! k = Some its → h' !! k = Some its) ∧
      h' !! y = Some (map (ren m') (done ++ rest)) ∧
      Forall (covered m') (done ++ rest) ∧
      (∀ l2 y2, m' !! l2 = Some y2 → mc !! l2 = None → hc !! y2 = None) ∧
      (∀ l2 y2, m' !! l2 = Some y2 → mc !! l2 = None →
         ∃ items, h0 !! l2 = Some items ∧
                  h' !! y2 = Some (map (ren m') items) ∧
                  Forall (covered m') items).
Proof.
  intros IHf. induction rest as [|a rest IH];
    intros done mc hc Hcp Hrest Hsize Hy0 Hy Hdone.
  - exists mc, hc. simpl. rewrite app_nil_r.
    split; [done|]. split; [done|]. split; [done|].
    split; [done|]. split; [done|]. split; [done|].
    split; intros l2 y2 H1 H2; congruence.
  - inversion Hrest as [|? ? Ha Hrest']; subst.
    destruct (IHf a mc hc Hcp Ha Hsize)
      as (a' & m2 & h2 & Heq & Hcd & Ha' & Hcov).
    destruct Hcd as [Hcp2 Hsub2 Hkeep2 Hfresh2 Hdone2].
    simpl. rewrite Heq. simpl.
    pose proof (Hkeep2 _ _ Hy) as Hy2.
    assert (Hfa : fresh_in h0 h2 a').
    { rewrite Ha'. by eapply ren_fresh. }
    destruct (copying_append h0 m2 h2 y a' _ Hcp2 Hy0 Hy2 Hfa)
      as (Hcp3 & Hy3 & Hkeep3).
    destruct (map_ren_mono mc m2 done Hdone Hsub2) as [Hmap Hdone'].
    destruct (IH (done ++ [a])%list m2 (heap_append y a' h2))
      as (m' & h' & Hci & Hcp' & Hsub' & Hkeep' & Hy' & Hcov' & Hfr' & Hdn');
      try done.
    { pose proof (map_subseteq_size _ _ Hsub2). lia. }
    { rewrite Hy3, map_app, Hmap. simpl. by rewrite Ha'. }
    { apply Forall_app. split; [done|]. by constructor. }
    exists m', h'. rewrite <- app_assoc in Hy', Hcov'. simpl in Hy', Hcov'.
    split; [done|]. split; [done|].
    split; [by etrans|].
    split; [intros k its Hne Hk; apply Hkeep'; [done|];
            apply Hkeep3; [done|]; by apply Hkeep2|].
    split; [done|]. split; [done|]. split.
    + intros l2 y2 Hl2 Hmc. destruct (m2 !! l2) as [z|] eqn:Hm2.
      * pose proof (lookup_weaken _ _ _ _ Hm2 Hsub') as Hz.
        rewrite Hl2 in Hz. inversion Hz; subst z. by eapply Hfresh2.
      * pose proof (Hfr' l2 y2 Hl2 Hm2) as Hn.
        destruct (hc !! y2) as [its|] eqn:E; [|done].
        destruct (decide (y2 = y)) as [->|Hne]; [congruence|].
        rewrite (Hkeep3 y2 its Hne (Hkeep2 _ _ E)) in Hn. done.
    + intros l2 y2 Hl2 Hmc. destruct (m2 !! l2) as [z|] eqn:Hm2.
      * pose proof (lookup_weaken _ _ _ _ Hm2 Hsub') as Hz.
        rewrite Hl2 in Hz. inversion Hz; subst z.
        destruct (Hdone2 l2 y2 Hm2 Hmc) as (items & Hi0 & Hi2 & Hic).
        exists items. split; [done|].
        destruct (map_ren_mono m2 m' items Hic Hsub') as [-> ?].
        split; [|done]. apply Hkeep'; [|apply Hkeep3; [|done]].
        all: intros ->; pose proof (Hfresh2 l2 y Hm2 Hmc); congruence.
      * by apply Hdn'.
Qed.

Lemma deepcopy_spec (f : nat) :
  ∀ x m h, copying h0 m h → val_in h0 x →
    (size h0 < f + size m)%nat →
    ∃ x' m' h', deepcopy f x (m, h) = Some (x', (m', h')) ∧
      copied h0 m h m' h' ∧ x' = ren m' x ∧ covered m' x.
Proof.
  induction f as [|f IHf]; intros x m h Hcp Hx Hsize.
  - (* no fuel is needed for atoms and for lists in the memo *)
    destruct x as [| | |l]; simpl;
      try (eexists _, m, h; split; [done|];
           split; [by apply copied_refl|done]).
    destruct (m !! l) as [y|] eqn:Hm.
    + exists (VRef y), m, h. split; [done|].
      split; [by apply copied_refl|]. simpl. rewrite Hm. eauto.
    + destruct Hx as [items Hl].
      pose proof (memo_size_lt h0 m h l items Hcp Hl Hm). lia.
  - destruct x as [| | |l]; simpl;
      try (eexists _, m, h; split; [done|];
           split; [by apply copied_refl|done]).
    destruct (m !! l) as [y|] eqn:Hm.
    + exists (VRef y), m, h. split; [done|].
      split; [by apply copied_refl|]. simpl. rewrite Hm. eauto.
    + destruct Hx as [items Hl].
      pose proof (cp_old _ _ _ Hcp l items Hl) as Hhl. rewrite Hhl.
      destruct (copying_alloc h0 m h l items Hcp Hl Hm)
        as (Hy & Hy0 & Hcp1).
      set (y := fresh (dom h)) in *.
      assert (Hitems : Forall (val_in h0) items).
      { by apply (Hclosed l items). }
      destruct (copy_items_spec f y IHf items [] (<[l:=y]> m)
                  (<[y:=[]]> h))
        as (m' & h' & Hci & Hcp' & Hsub' & Hkeep' & Hy' & Hcov' & Hfr'
            & Hdn'); try done.
      { rewrite map_size_insert_None by done. lia. }
      { by rewrite lookup_insert_eq. }
      rewrite Hci. exists (VRef y), m', h'. split; [done|].
      assert (Hly : m' !! l = Some y).
      { eapply lookup_weaken; [|done]. by rewrite lookup_insert_eq. }
      split; [|simpl; rewrite Hly; eauto].
      split; [done| | | |].
      * etrans; [|done]. by apply insert_subseteq.
      * intros k its Hk. apply Hkeep'; [congruence|].
        rewrite lookup_insert_ne; [done|congruence].
      * intros l2 y2 Hl2 Hm2. destruct (decide (l2 = l)) as [->|Hne].
        -- rewrite Hly in Hl2. by inversion Hl2; subst.
        -- pose proof (Hfr' l2 y2 Hl2) as Hn.
           rewrite lookup_insert_ne in Hn by done. specialize (Hn Hm2).
           destruct (decide (y2 = y)) as [->|Hney];
             [by rewrite lookup_insert_eq in Hn|].
           by rewrite lookup_insert_ne in Hn.
      * intros l2 y2 Hl2 Hm2. destruct (decide (l2 = l)) as [->|Hne].
        -- rewrite Hly in Hl2. inversion Hl2; subst y2.
           exists items. simpl in Hy', Hcov'. done.
        -- apply Hdn'; [done|]. by rewrite lookup_insert_ne.
Qed.
End deepcopy_correct.

Lemma copying_start h0 : copying h0 ∅ h0.
Proof.
  split; [done| |].
  - intros l y Hl. by rewrite lookup_empty in Hl.
  - intros y items H1 H2. congruence.
Qed.

Lemma view_copy h0 (m : memo) h :
  (∀ l y, m !! l = Some y →
     ∃ items, h0 !! l = Some items ∧ h !! y = Some (map (ren m) items) ∧
              Forall (covered m) items) →
  ∀ n x, covered m x → view n h (ren m x) = view n h0 x.
Proof.
  intros Hdone. induction n as [|n IH]; intros x Hx.
  - destruct x as [| | |l]; simpl; try done.
    destruct Hx as [y Hy]. by rewrite Hy.
  - destruct x as [| | |l]; simpl; try done.
    destruct Hx as [y Hy]. rewrite Hy. simpl.
    destruct (Hdone l y Hy) as (items & -> & -> & Hcov).
    f_equal. rewrite map_map. apply map_ext_Forall.
    eapply Forall_impl; [done|]. intros a Ha. by apply IH.
Qed.

(** [copy.deepcopy] returns on every heap without dangling references; it
    keeps the lists there were, the copy lies wholly in new lists, and the
    copy shows what the original shows, to every depth. *)
Lemma deepcopy_top_spec h0 x :
  heap_closed h0 → val_in h0 x →
  ∃ x' h', deepcopy_top h0 x = Some (x', h') ∧
    (∀ l items, h0 !! l = Some items → h' !! l = Some items) ∧
    fresh_in h0 h' x' ∧
    (∀ y items, h0 !! y = None → h' !! y = Some items →
       Forall (fresh_in h0 h') items) ∧
    (∀ n, view n h' x' = view n h0 x).
Proof.
  intros Hcl Hx. unfold deepcopy_top.
  destruct (deepcopy_spec h0 Hcl (S (size h0)) x ∅ h0)
    as (x' & m' & h' & Heq & Hcd & Hx' & Hcov);
    [apply copying_start | done | lia |].
  rewrite Heq. exists x', h'. split; [done|].
  destruct Hcd as [Hcp _ Hkeep _ Hdone].
  split; [done|]. split; [rewrite Hx'; by eapply ren_fresh|].
  split; [by apply (cp_new _ _ _ Hcp)|].
  intros n. rewrite Hx'. apply (view_copy h0 m' h'); [|done].
  intros l y Hl. by apply Hdone.
Qed.

(** ** Regions of the heap *)

Lemma view_frame (R : loc → Prop) h h' :
  (∀ l, R l → h' !! l = h !! l) → region_closed h R →
  ∀ n x, val_within R x → view n h' x = view n h x.
Proof.
  intros Hagree Hclosed. induction n as [|n IH]; intros x Hx; [by destruct x|].
  destruct x as [| | |l]; simpl; try done.
  rewrite (Hagree l) by (by apply Hx).
  destruct (h !! l) as [items|] eqn:Hl; [|done].
  f_equal. apply map_ext_Forall, Forall_forall. intros a Ha. apply IH.
  intros k ->. eapply Hclosed; [|done|done]. by apply Hx.
Qed.

Lemma reach_within (R : loc → Prop) h x l :
  region_closed h R → val_within R x → reach h x l → R l.
Proof.
  intros Hclosed Hx Hr. induction Hr as [l|l items k l' Hl Hk _ IH].
  - by apply Hx.
  - apply IH. intros ? [= <-]. eapply Hclosed; [|done|done]. by apply Hx.
Qed.

Lemma heap_closed_lookup h l items k :
  heap_closed h → h !! l = Some items → VRef k ∈ items → is_Some (h !! k).
Proof.
  intros Hc Hl Hk. pose proof (Hc l items Hl) as Hf.
  rewrite Forall_forall in Hf. by apply (Hf (VRef k)).
Qed.

Lemma old_region_closed h0 h :
  heap_closed h0 →
  (∀ l items, h0 !! l = Some items → h !! l = Some items) →
  region_closed h (fun l => is_Some (h0 !! l)).
Proof.
  intros Hc Hold l items k [its Hl] Hh Hk.
  rewrite (Hold l its Hl) in Hh. inversion Hh; subst its.
  by eapply heap_closed_lookup.
Qed.

Lemma new_region_closed h0 h1 h :
  (∀ y items, h0 !! y = None → h1 !! y = Some items →
     Forall (fresh_in h0 h1) items) →
  (∀ l items, h1 !! l = Some items → h !! l = Some items) →
  region_closed h (fun l => h0 !! l = None ∧ is_Some (h1 !! l)).
Proof.
  intros Hnew Hkeep l items k [Hl0 [its Hl1]] Hh Hk.
  rewrite (Hkeep l its Hl1) in Hh. inversion Hh; subst its.
  pose proof (Hnew l items Hl0 Hl1) as Hf. rewrite Forall_forall in Hf.
  by apply (Hf (VRef k)).
Qed.

Lemma deepcopy_keeps_closed h0 h' :
  heap_closed h0 →
  (∀ l items, h0 !! l = Some items → h' !! l = Some items) →
  (∀ y items, h0 !! y = None → h' !! y = Some items →
     Forall (fresh_in h0 h') items) →
  heap_closed h'.
Proof.
  intros Hc Hold Hnew l items Hl.
  destruct (h0 !! l) as [its|] eqn:Hl0.
  - rewrite (Hold l its Hl0) in Hl. inversion Hl; subst its.
    eapply Forall_impl; [by apply (Hc l items)|].
    intros [| | |k]; simpl; try done. intros [its Hk]. eauto.
  - eapply Forall_impl; [by eapply Hnew|].
    intros [| | |k]; simpl; try done. by intros [_ ?].
Qed.

(** ** Loading a channel *)

Lemma load_ctrl_config_spec (s : state) (c : Z) :
  heap_closed (mem s) → val_in (mem s) (ctrl_list s) →
  0 <= c < Z.of_nat (length (ctrl_config s)) →
  ∃ x' h',
    deepcopy_top (mem s) (ctrl_list s) = Some (x', h') ∧
    load_ctrl_config (VInt c) s
    = (Ok tt, set_ctrl_config (<[Z.to_nat c := x']> (ctrl_config s))
                (set_mem h' s)).
Proof.
  intros Hc Hx Hr.
  destruct (deepcopy_top_spec (mem s) (ctrl_list s) Hc Hx)
    as (x' & h' & Heq & _).
  exists x', h'. split; [done|].
  unfold load_ctrl_config. run_monad. rewrite Heq. run_monad.
  unfold list_setitem. by rewrite norm_index_nonneg.
Qed.

Lemma slot_insert_eq s (c : Z) x cc :
  0 <= c < Z.of_nat (length cc) →
  slot (set_ctrl_config (<[Z.to_nat c := x]> cc) s) c = x.
Proof.
  intros Hc. unfold slot. simpl. apply nth_lookup_Some with (d := VNone).
  apply list_lookup_insert_eq. lia.
Qed.

Lemma isolated_region (R Rx : loc → Prop) (s : state) x y :
  region_closed (mem s) Rx → val_within Rx x →
  region_closed (mem s) R → val_within R y →
  (∀ l, Rx l → R l → False) →
  ∀ l items n, reach (mem s) x l →
    view n (mem (mutate l items s)) y = view n (mem s) y.
Proof.
  intros Hcx Hx Hc Hy Hdisj l items n Hr.
  pose proof (reach_within Rx _ _ _ Hcx Hx Hr) as Hl.
  apply (view_frame R); [|done|done].
  intros k Hk. simpl. apply lookup_insert_ne. intros ->. by eapply Hdisj.
Qed.

Lemma val_in_within h x : val_in h x → val_within (fun l => is_Some (h !! l)) x.
Proof. by intros Hx l ->. Qed.

Lemma fresh_in_within h0 h x :
  fresh_in h0 h x → val_within (fun l => h0 !! l = None ∧ is_Some (h !! l)) x.
Proof. by intros Hx l ->. Qed.

(** C2. After [load_ctrl_config(c)] and [load_ctrl_config(c')] for two
    distinct channels of the sixteen, both slots show what the template
    shows, no list can be reached from two of: the configuration of [c],
    the configuration of [c'], the template; and whatever list of one
    configuration is mutated in place, the other configuration and the
    template show what they showed before. *)
Theorem load_ctrl_config_isolation (s : state) (c c' : Z) :
  length (ctrl_config s) = 16%nat →
  0 <= c < 16 → 0 <= c' < 16 → c ≠ c' →
  heap_closed (mem s) → val_in (mem s) (ctrl_list s) →
  ∃ s2,
    (load_ctrl_config (VInt c) >> load_ctrl_config (VInt c')) s
      = (Ok tt, s2) ∧
    ctrl_list s2 = ctrl_list s ∧
    (∀ n, view n (mem s2) (slot s2 c) = view n (mem s) (ctrl_list s)) ∧
    (∀ n, view n (mem s2) (slot s2 c') = view n (mem s) (ctrl_list s)) ∧
    (∀ n, view n (mem s2) (ctrl_list s2) = view n (mem s) (ctrl_list s)) ∧
    shares_nothing (mem s2) (slot s2 c) (slot s2 c') ∧
    shares_nothing (mem s2) (slot s2 c) (ctrl_list s2) ∧
    shares_nothing (mem s2) (slot s2 c') (ctrl_list s2) ∧
    isolated_from s2 (slot s2 c) [slot s2 c'; ctrl_list s2] ∧
    isolated_from s2 (slot s2 c') [slot s2 c; ctrl_list s2].
Proof.
  intros Hlen Hc Hc' Hne Hcl Htpl.
  set (h0 := mem s) in *. set (tpl := ctrl_list s) in *.
  (* first load *)
  destruct (load_ctrl_config_spec s c Hcl Htpl) as (x1 & h1 & Hd1 & Hl1);
    [lia|].
  destruct (deepcopy_top_spec h0 tpl Hcl Htpl)
    as (x1' & h1' & Hd1' & Hold1 & Hx1 & Hnew1 & Hview1).
  fold h0 tpl in Hd1. rewrite Hd1 in Hd1'. inversion Hd1'; subst x1' h1'.
  clear Hd1'.
  set (s1 := set_ctrl_config (<[Z.to_nat c:=x1]> (ctrl_config s))
               (set_mem h1 s)) in *.
  assert (Hcl1 : heap_closed (mem s1)) by (by eapply deepcopy_keeps_closed).
  assert (Htpl1 : val_in (mem s1) (ctrl_list s1)).
  { simpl. fold tpl. destruct tpl as [| | |l]; simpl in *; try done.
    destruct Htpl as [its Hl]. rewrite (Hold1 l its Hl). eauto. }
  (* second load *)
  destruct (load_ctrl_config_spec s1 c' Hcl1 Htpl1)
    as (x2 & h2 & Hd2 & Hl2); [simpl; rewrite length_insert; lia|].
  destruct (deepcopy_top_spec (mem s1) (ctrl_list s1) Hcl1 Htpl1)
    as (x2' & h2' & Hd2' & Hold2 & Hx2 & Hnew2 & Hview2).
  rewrite Hd2 in Hd2'. inversion Hd2'; subst x2' h2'. clear Hd2'.
  simpl in Hold2, Hx2, Hnew2, Hview2. fold tpl in Hview2.
  eexists. split.
  { unfold bind. rewrite Hl1. exact Hl2. }
  (* the slots *)
  assert (Hs2 : slot (set_ctrl_config (<[Z.to_nat c':=x2]> (ctrl_config s1))
                        (set_mem h2 s1)) c' = x2).
  { apply slot_insert_eq. simpl. rewrite length_insert. lia. }
  assert (Hs1 : slot (set_ctrl_config (<[Z.to_nat c':=x2]> (ctrl_config s1))
                        (set_mem h2 s1)) c = x1).
  { unfold slot. simpl. apply nth_lookup_Some with (d := VNone).
    rewrite list_lookup_insert_ne by lia.
    apply list_lookup_insert_eq. lia. }
  rewrite Hs1, Hs2. simpl. fold tpl.
  (* the three regions of the final heap *)
  set (A := fun l : loc => is_Some (h0 !! l)).
  set (B := fun l : loc => h0 !! l = None ∧ is_Some (h1 !! l)).
  set (C := fun l : loc => h1 !! l = None ∧ is_Some (h2 !! l)).
  assert (HA : region_closed h2 A).
  { apply old_region_closed; [done|]. intros l its Hl.
    by apply Hold2, Hold1. }
  assert (HB : region_closed h2 B) by (by apply new_region_closed).
  assert (HC : region_closed h2 C) by (by apply new_region_closed).
  assert (HtA : val_within A tpl) by (by apply val_in_within).
  assert (H1B : val_within B x1) by (by apply fresh_in_within).
  assert (H2C : val_within C x2) by (by apply fresh_in_within).
  assert (HAB : ∀ l, A l → B l → False).
  { intros l [its Hl] [Hn _]. congruence. }
  assert (HAC : ∀ l, A l → C l → False).
  { intros l [its Hl] [Hn _]. apply Hold1 in Hl. congruence. }
  assert (HBC : ∀ l, B l → C l → False).
  { intros l [_ [its Hl]] [Hn _]. congruence. }
  assert (Hvt : ∀ n, view n h2 tpl = view n h0 tpl).
  { intros n. apply (view_frame A); [| |done].
    - intros l [its Hl]. rewrite Hl. by apply Hold2, Hold1.
    - by apply old_region_closed. }
  split; [done|]. split; [|split; [|split; [done|]]].
  { intros n. rewrite <- Hview1. apply (view_frame B); [| |done].
    - intros l [_ [its Hl]]. rewrite Hl. by apply Hold2.
    - by apply new_region_closed. }
  { intros n. rewrite Hview2. apply (view_frame A); [| |done].
    - intros l [its Hl]. rewrite Hl. by apply Hold1.
    - by apply old_region_closed. }
  split; [|split; [|split; [|split]]].
  - intros l Hr1 Hr2. apply (HBC l); by eapply reach_within.
  - intros l Hr1 Hr2. apply (HAB l); by eapply reach_within.
  - intros l Hr1 Hr2. apply (HAC l); by eapply reach_within.
  - intros l items n y Hr Hy.
    apply elem_of_cons in Hy as [->|Hy];
      [|apply list_elem_of_singleton in Hy as ->].
    + eapply (isolated_region C B) with (x := x1); try done;
        intros k Hk1 Hk2; by eauto.
    + eapply (isolated_region A B) with (x := x1); try done;
        intros k Hk1 Hk2; by eauto.
  - intros l items n y Hr Hy.
    apply elem_of_cons in Hy as [->|Hy];
      [|apply list_elem_of_singleton in Hy as ->].
    + eapply (isolated_region B C) with (x := x2); try done;
        intros k Hk1 Hk2; by eauto.
    + eapply (isolated_region A C) with (x := x2); try done;
        intros k Hk1 Hk2; by eauto.
Qed.

Lemma sample_heap_closed : heap_closed sample_heap.
Proof. apply (bool_decide_unpack _). by vm_compute. Qed.

Lemma load_ctrl_config_isolation_witness :
  ∃ s2,
    (load_ctrl_config (VInt 3) >> load_ctrl_config (VInt 4)) sample_engine
      = (Ok tt, s2) ∧
    ctrl_list s2 = ctrl_list sample_engine ∧
    (∀ n, view n (mem s2) (slot s2 3)
          = view n (mem sample_engine) (ctrl_list sample_engine)) ∧
    (∀ n, view n (mem s2) (slot s2 4)
          = view n (mem sample_engine) (ctrl_list sample_engine)) ∧
    (∀ n, view n (mem s2) (ctrl_list s2)
          = view n (mem sample_engine) (ctrl_list sample_engine)) ∧
    shares_nothing (mem s2) (slot s2 3) (slot s2 4) ∧
    shares_nothing (mem s2) (slot s2 3) (ctrl_list s2) ∧
    shares_nothing (mem s2) (slot s2 4) (ctrl_list s2) ∧
    isolated_from s2 (slot s2 3) [slot s2 4; ctrl_list s2] ∧
    isolated_from s2 (slot s2 4) [slot s2 3; ctrl_list s2].
Proof.
  apply (load_ctrl_config_isolation sample_engine 3 4);
    [reflexivity | lia | lia | lia | apply sample_heap_closed
    | apply (bool_decide_unpack _); by vm_compute].
Defined.

(** ** The template behind the channels *)






(** * Further properties *)

(** ** The loading counter at its floor *)

Lemma run_calls_stops (k : nat) s :
  0 <= loading s →
  loading (run_calls (replicate k BusyEnd) s)
  = Z.max 0 (loading s - Z.of_nat k).
Proof.
  revert s. induction k as [|k IH]; intros s Hs.
  - simpl. lia.
  - change (replicate (S k) BusyEnd) with (BusyEnd :: replicate k BusyEnd).
    rewrite run_calls_cons. unfold busy.
    rewrite IH; rewrite stop_loading_counter; lia.
Qed.

Lemma run_calls_app cs1 cs2 s :
  run_calls (cs1 ++ cs2) s = run_calls cs2 (run_calls cs1 s).
Proof.
  revert s. induction cs1 as [|c cs1 IH]; intros s; [done|].
  change ((c :: cs1) ++ cs2)%list with (c :: (cs1 ++ cs2))%list.
  by rewrite !run_calls_cons, IH.
Qed.

(** X1. Ends without a begin are absorbed at the floor and leave no debt:
    after [k] calls of [stop_loading] the counter is [max 0 (n - k)], and
    the next [start_loading] raises it by one from there. *)
Theorem unmatched_stop_absorbed (k : nat) (s : state) :
  0 <= loading s →
  loading (run_calls (replicate k BusyEnd) s)
    = Z.max 0 (loading s - Z.of_nat k) ∧
  loading (run_calls (replicate k BusyEnd ++ [BusyBegin]) s)
    = Z.max 0 (loading s - Z.of_nat k) + 1.
Proof.
  intros Hs. split; [by apply run_calls_stops|].
  rewrite run_calls_app, run_calls_cons. unfold busy, run_calls.
  rewrite start_loading_counter, run_calls_stops by done. lia.
Qed.

Lemma unmatched_stop_absorbed_witness :
  loading (run_calls (replicate 3 BusyEnd) sample_engine)
    = Z.max 0 (loading sample_engine - Z.of_nat 3) ∧
  loading (run_calls (replicate 3 BusyEnd ++ [BusyBegin]) sample_engine)
    = Z.max 0 (loading sample_engine - Z.of_nat 3) + 1.
Proof. apply (unmatched_stop_absorbed 3 sample_engine). simpl. lia. Defined.

(** X2. Without a GUI object both signals still move the counter, then
    raise [AttributeError]. *)
Theorem loading_without_gui (s : state) :
  zyngui s = None →
  start_loading s
    = (Raise AttributeError, set_loading (Z.max 1 (loading s + 1)) s) ∧
  stop_loading s
    = (Raise AttributeError, set_loading (Z.max 0 (loading s - 1)) s).
Proof.
  intros Hg. unfold start_loading, stop_loading, zyngui_call. run_monad.
  split.
  - destruct (Z.ltb_spec (loading s + 1) 1); run_monad; rewrite Hg;
      unfold set_loading; simpl; do 2 f_equal; lia.
  - destruct (Z.ltb_spec (loading s - 1) 0); run_monad; rewrite Hg;
      unfold set_loading; simpl; do 2 f_equal; lia.
Qed.

Lemma loading_without_gui_witness :
  start_loading (mk_state None "sample" VNone None false None 6693 None None
                   None 0 [] VNone VNone ∅ [])
    = (Raise AttributeError,
       set_loading (Z.max 1 (0 + 1))
         (mk_state None "sample" VNone None false None 6693 None None
            None 0 [] VNone VNone ∅ [])) ∧
  stop_loading (mk_state None "sample" VNone None false None 6693 None None
                  None 0 [] VNone VNone ∅ [])
    = (Raise AttributeError,
       set_loading (Z.max 0 (0 - 1))
         (mk_state None "sample" VNone None false None 6693 None None
            None 0 [] VNone VNone ∅ [])).
Proof.
  apply (loading_without_gui
           (mk_state None "sample" VNone None false None 6693 None None
              None 0 [] VNone VNone ∅ [])).
  reflexivity.
Defined.

(** ** More on the process supervisor *)

(** X3. When the command cannot be spawned, [start] logs the error and
    returns normally: no handle is set, no queue is made, the busy period
    is opened and closed and the counter is back at its value. *)
Theorem start_spawn_failure (w : world) (sq sh : bool) (e : exn) (s : state) :
  proc s = None → zyngui s = Some Gui → 0 <= loading s →
  w_popen w (command s) sh = Raise e →
  start w sq sh s
  = (Ok tt,
     add_trace [EvLog LInfo ("Starting Engine " ++ name s);
                EvGuiStartLoading; EvPopen (command s) sh;
                EvLog LError "Can't start engine"; EvGuiStopLoading] s).
Proof.
  intros Hp Hg Hl Hw. unfold start, try_except. run_monad. rewrite Hp.
  run_monad. rewrite start_loading_gui by done. simpl. rewrite Hw. simpl.
  rewrite stop_loading_gui by done. simpl.
  f_equal. state_eq.
Qed.

Lemma start_spawn_failure_witness :
  start world_no_spawn true false sample_engine
  = (Ok tt,
     add_trace [EvLog LInfo ("Starting Engine " ++ name sample_engine);
                EvGuiStartLoading; EvPopen (command sample_engine) false;
                EvLog LError "Can't start engine"; EvGuiStopLoading]
       sample_engine).
Proof.
  apply (start_spawn_failure world_no_spawn true false OSError sample_engine);
    [reflexivity | reflexivity | simpl; lia | reflexivity].
Defined.

(** X4. [stop] on an engine without a process does nothing.  With a
    process, whatever terminate, kill and killpg answer, it asks the
    process to terminate, returns normally, leaves no handle and brings the
    counter back to its value. *)
Theorem stop_clears_process (w : world) (wait : Z) (s : state) :
  (proc s = None → stop w wait s = (Ok tt, s)) ∧
  (∀ ph, proc s = Some ph → zyngui s = Some Gui → 0 <= loading s →
     (stop w wait s).1 = Ok tt ∧
     proc (stop w wait s).2 = None ∧
     loading (stop w wait s).2 = loading s ∧
     EvTerminate (pid_of ph) ∈ trace (stop w wait s).2 ∧
     last (trace (stop w wait s).2) = Some EvGuiStopLoading).
Proof.
  split.
  - intros Hp. unfold stop. run_monad. by rewrite Hp.
  - intros ph Hp Hg Hl. unfold stop, try_except. run_monad. rewrite Hp.
    run_monad. rewrite start_loading_gui by done. simpl.
    destruct (w_terminate w ph); simpl.
    + destruct (0 <? wait); run_monad;
        destruct (w_kill w ph); simpl;
        try destruct (w_killpg w (pid_of ph)); simpl;
        rewrite stop_loading_gui by done; simpl;
        (split; [done|]); (split; [done|]); (split; [lia|]);
        (split; [|by rewrite last_snoc]);
        rewrite !elem_of_app, !list_elem_of_singleton; naive_solver.
    + rewrite stop_loading_gui by done; simpl.
      split; [done|]. split; [done|]. split; [lia|].
      split; [|by rewrite last_snoc].
      rewrite !elem_of_app, !list_elem_of_singleton. naive_solver.
Qed.

Lemma stop_clears_process_witness :
  stop sample_world 200 sample_engine = (Ok tt, sample_engine) ∧
  (stop sample_world 200 sample_running).1 = Ok tt ∧
  proc (stop sample_world 200 sample_running).2 = None ∧
  loading (stop sample_world 200 sample_running).2 = loading sample_running ∧
  EvTerminate 4242 ∈ trace (stop sample_world 200 sample_running).2 ∧
  last (trace (stop sample_world 200 sample_running).2)
    = Some EvGuiStopLoading.
Proof.
  destruct (stop_clears_process sample_world 200 sample_engine) as [Ha _].
  destruct (stop_clears_process sample_world 200 sample_running) as [_ Hb].
  split; [by apply Ha|].
  apply (Hb (Popen_object 4242)); [reflexivity | reflexivity | simpl; lia].
Defined.

(** X5. Starting an engine and stopping it again leaves it without a
    process and with its counter where it was, whatever the process
    answers to the termination requests. *)
Theorem start_then_stop (w : world) (sq sh : bool) (wait : Z) (ph : proc_handle)
    (s : state) :
  proc s = None → zyngui s = Some Gui → 0 <= loading s →
  w_popen w (command s) sh = Ok ph →
  let s2 := ((start w sq sh >> stop w wait) s).2 in
  ((start w sq sh >> stop w wait) s).1 = Ok tt ∧
  proc s2 = None ∧ loading s2 = loading s ∧
  EvTerminate (pid_of ph) ∈ trace s2.
Proof.
  intros Hp Hg Hl Hw. unfold bind.
  destruct (start_balanced w sq sh s Hg Hl) as [Hr Hc].
  destruct (start_spawns w sq sh s ph Hp Hg Hw) as [Hph _].
  destruct (start w sq sh s) as [r s1] eqn:Hs. simpl in Hr, Hc, Hph.
  subst r.
  assert (Hg1 : zyngui s1 = Some Gui).
  { replace s1 with (start w sq sh s).2 by (by rewrite Hs).
    unfold start, try_except. run_monad. rewrite Hp. run_monad.
    rewrite start_loading_gui by done. simpl. rewrite Hw. simpl.
    destruct sq; run_monad; unfold proc_get_lines; run_monad;
      by rewrite stop_loading_gui. }
  destruct (stop_clears_process w wait s1) as [_ Hstop].
  destruct (Hstop ph Hph Hg1) as (H1 & H2 & H3 & H4 & _); [lia|].
  simpl. repeat split; try done. lia.
Qed.

Lemma start_then_stop_witness :
  let s2 := ((start sample_world true false >> stop sample_world 200)
               sample_engine).2 in
  ((start sample_world true false >> stop sample_world 200)
     sample_engine).1 = Ok tt ∧
  proc s2 = None ∧ loading s2 = loading sample_engine ∧
  EvTerminate (pid_of (Popen_object 4242)) ∈ trace s2.
Proof.
  apply (start_then_stop sample_world true false 200 (Popen_object 4242)
           sample_engine);
    [reflexivity | reflexivity | simpl; lia | reflexivity].
Defined.

(** X6. On an engine whose process was started without an output queue
    (the default of [start]), [proc_cmd] writes and flushes the command,
    fails to read the queue, logs an error and returns the empty string,
    whatever the process does. *)
Theorem proc_cmd_without_queue (w : world) (cmd : string) (tout : Z)
    (ph : proc_handle) (s : state) :
  proc s = Some ph → queue s = false → zyngui s = Some Gui →
  (proc_cmd w cmd tout s).1 = Ok (OutStr "") ∧
  EvLog LError "Can't exec engine command" ∈ trace (proc_cmd w cmd tout s).2.
Proof.
  intros Hp Hq Hg. unfold proc_cmd, try_except. run_monad. rewrite Hp.
  run_monad. rewrite start_loading_gui by done. simpl.
  destruct (w_stdin_write w ph (cmd ++ newline)); simpl;
    [destruct (w_stdin_flush w ph); simpl;
     [unfold proc_get_lines; run_monad; rewrite Hq; simpl|]|];
    rewrite stop_loading_gui by done; simpl; (split; [done|]);
    rewrite !elem_of_app, !list_elem_of_singleton; naive_solver.
Qed.

Lemma proc_cmd_without_queue_witness :
  (proc_cmd sample_world "load bank" 100 sample_running).1 = Ok (OutStr "") ∧
  EvLog LError "Can't exec engine command"
  ∈ trace (proc_cmd sample_world "load bank" 100 sample_running).2.
Proof.
  apply (proc_cmd_without_queue sample_world "load bank" 100
           (Popen_object 4242) sample_running); reflexivity.
Defined.

(** X7. With a process and its queue, when the write and the flush
    succeed [proc_cmd] writes the command followed by a newline, flushes,
    and returns the lines read from the queue, between the two busy
    signals; the counter is back at its value. *)
Theorem proc_cmd_reply (w : world) (cmd : string) (tout : Z)
    (ph : proc_handle) (s : state) :
  proc s = Some ph → queue s = true → zyngui s = Some Gui →
  0 <= loading s →
  w_stdin_write w ph (cmd ++ newline) = Ok tt →
  w_stdin_flush w ph = Ok tt →
  proc_cmd w cmd tout s
  = (Ok (OutLines (w_queue_lines w)),
     add_trace [EvGuiStartLoading;
                EvStdinWrite (pid_of ph) (cmd ++ newline);
                EvStdinFlush (pid_of ph); EvGuiStopLoading] s).
Proof.
  intros Hp Hq Hg Hl Hw Hf. unfold proc_cmd, try_except. run_monad.
  rewrite Hp. run_monad. rewrite start_loading_gui by done. simpl.
  rewrite Hw. simpl. rewrite Hf. simpl.
  unfold proc_get_lines. run_monad. rewrite Hq. simpl.
  rewrite stop_loading_gui by done. simpl.
  f_equal. state_eq.
Qed.

Lemma proc_cmd_reply_witness :
  proc_cmd sample_world "load bank" 100 sample_queued
  = (Ok (OutLines (w_queue_lines sample_world)),
     add_trace [EvGuiStartLoading;
                EvStdinWrite (pid_of (Popen_object 4242))
                  ("load bank" ++ newline);
                EvStdinFlush (pid_of (Popen_object 4242));
                EvGuiStopLoading] sample_queued).
Proof.
  apply (proc_cmd_reply sample_world "load bank" 100 (Popen_object 4242)
           sample_queued);
    [reflexivity | reflexivity | reflexivity | simpl; lia
    | reflexivity | reflexivity].
Defined.

(** X8. When the write to the process fails, [proc_cmd] flushes nothing and
    reads nothing; it logs the error, returns the empty string and closes
    the busy period. *)
Theorem proc_cmd_write_failure (w : world) (cmd : string) (tout : Z)
    (ph : proc_handle) (e : exn) (s : state) :
  proc s = Some ph → zyngui s = Some Gui → 0 <= loading s →
  w_stdin_write w ph (cmd ++ newline) = Raise e →
  proc_cmd w cmd tout s
  = (Ok (OutStr ""),
     add_trace [EvGuiStartLoading;
                EvStdinWrite (pid_of ph) (cmd ++ newline);
                EvLog LError "Can't exec engine command";
                EvGuiStopLoading] s).
Proof.
  intros Hp Hg Hl Hw. unfold proc_cmd, try_except. run_monad.
  rewrite Hp. run_monad. rewrite start_loading_gui by done. simpl.
  rewrite Hw. simpl. rewrite stop_loading_gui by done. simpl.
  f_equal. state_eq.
Qed.

Lemma proc_cmd_write_failure_witness :
  proc_cmd world_broken_pipe "load bank" 100 sample_queued
  = (Ok (OutStr ""),
     add_trace [EvGuiStartLoading;
                EvStdinWrite (pid_of (Popen_object 4242))
                  ("load bank" ++ newline);
                EvLog LError "Can't exec engine command";
                EvGuiStopLoading] sample_queued).
Proof.
  apply (proc_cmd_write_failure world_broken_pipe "load bank" 100
           (Popen_object 4242) OSError sample_queued);
    [reflexivity | reflexivity | simpl; lia | reflexivity].
Defined.

(** ** More on the OSC transport *)

(** X9. When both addresses and the server can be made, [osc_init] sets the
    target, the server, its port and its URL, registers the catch-all
    method, starts the server, and closes the busy period with the counter
    back at its value. *)
Theorem osc_init_success (w : world) (proto : Z) (a a2 : address)
    (sv : server) (s : state) :
  zyngui s = Some Gui → 0 <= loading s →
  w_address w "localhost" (osc_target_port s) proto = Ok a →
  w_server_thread w proto = Ok sv →
  w_address w "localhost" (get_port sv) proto = Ok a2 →
  let r := osc_init w proto s in
  r.1 = Ok tt ∧
  osc_target r.2 = Some a ∧ osc_server r.2 = Some sv ∧
  osc_server_port r.2 = Some (get_port sv) ∧
  osc_server_url r.2 = Some (w_get_url w a2) ∧
  loading r.2 = loading s ∧
  trace r.2 = (trace s ++ [EvGuiStartLoading;
                           EvLog LInfo "OSC target in port";
                           EvLog LInfo "OSC server running in port";
                           EvOscAddMethod; EvOscServerStart;
                           EvGuiStopLoading])%list.
Proof.
  intros Hg Hl Ha Hsv Ha2. unfold osc_init, try_except, osc_add_methods.
  run_monad. rewrite start_loading_gui by done. simpl.
  rewrite Ha. simpl. rewrite Hsv. simpl. rewrite Ha2. simpl.
  rewrite stop_loading_gui by done. simpl.
  repeat split; try done; [lia|]. by rewrite <- !app_assoc.
Qed.

Lemma osc_init_success_witness :
  let r := osc_init sample_world 1 sample_engine in
  r.1 = Ok tt ∧
  osc_target r.2 = Some (Address "localhost" 6693 1) ∧
  osc_server r.2 = Some (ServerThread_object 9000) ∧
  osc_server_port r.2 = Some (get_port (ServerThread_object 9000)) ∧
  osc_server_url r.2
    = Some (w_get_url sample_world (Address "localhost" 9000 1)) ∧
  loading r.2 = loading sample_engine ∧
  trace r.2 = (trace sample_engine
               ++ [EvGuiStartLoading;
                   EvLog LInfo "OSC target in port";
                   EvLog LInfo "OSC server running in port";
                   EvOscAddMethod; EvOscServerStart;
                   EvGuiStopLoading])%list.
Proof.
  apply (osc_init_success sample_world 1 (Address "localhost" 6693 1)
           (Address "localhost" 9000 1) (ServerThread_object 9000)
           sample_engine);
    [reflexivity | simpl; lia | reflexivity | reflexivity | reflexivity].
Defined.

(** X10. When the address of the server's own port is refused with an
    [AddressError], [osc_init] returns normally with the transport half
    open: target, server and port are set, the URL is not, and the server
    was neither given its method nor started. *)
Theorem osc_init_url_failure (w : world) (proto : Z) (a : address)
    (sv : server) (s : state) :
  zyngui s = Some Gui → 0 <= loading s →
  w_address w "localhost" (osc_target_port s) proto = Ok a →
  w_server_thread w proto = Ok sv →
  w_address w "localhost" (get_port sv) proto = Raise AddressError →
  let r := osc_init w proto s in
  r.1 = Ok tt ∧
  osc_target r.2 = Some a ∧ osc_server r.2 = Some sv ∧
  osc_server_port r.2 = Some (get_port sv) ∧
  osc_server_url r.2 = osc_server_url s ∧
  loading r.2 = loading s ∧
  trace r.2 = (trace s ++ [EvGuiStartLoading;
                           EvLog LInfo "OSC target in port";
                           EvLog LError
                             "OSC Server can't be initialized. Running without OSC feedback.";
                           EvGuiStopLoading])%list.
Proof.
  intros Hg Hl Ha Hsv Ha2. unfold osc_init, try_except, osc_add_methods.
  run_monad. rewrite start_loading_gui by done. simpl.
  rewrite Ha. simpl. rewrite Hsv. simpl. rewrite Ha2. simpl.
  rewrite stop_loading_gui by done. simpl.
  repeat split; try done; [lia|]. by rewrite <- !app_assoc.
Qed.

Lemma osc_init_url_failure_witness :
  let w := mk_world
    (w_popen sample_world) (w_stdin_write sample_world)
    (w_stdin_flush sample_world) (w_queue_lines sample_world)
    (w_terminate sample_world) (w_kill sample_world) (w_killpg sample_world)
    (fun host port proto =>
       if port =? 6693 then Ok (Address host port proto)
       else Raise AddressError)
    (w_server_thread sample_world)
    (w_get_url sample_world) (w_listdir sample_world) (w_isfile sample_world)
    (w_isdir sample_world)
    (w_get_ctrl_osc_val sample_world) (w_get_ctrl_midi_val sample_world)
    (w_liblo_send sample_world) in
  let r := osc_init w 1 sample_engine in
  r.1 = Ok tt ∧
  osc_target r.2 = Some (Address "localhost" 6693 1) ∧
  osc_server r.2 = Some (ServerThread_object 9000) ∧
  osc_server_port r.2 = Some (get_port (ServerThread_object 9000)) ∧
  osc_server_url r.2 = osc_server_url sample_engine ∧
  loading r.2 = loading sample_engine ∧
  trace r.2 = (trace sample_engine
               ++ [EvGuiStartLoading;
                   EvLog LInfo "OSC target in port";
                   EvLog LError
                     "OSC Server can't be initialized. Running without OSC feedback.";
                   EvGuiStopLoading])%list.
Proof.
  intros w.
  apply (osc_init_url_failure w 1 (Address "localhost" 6693 1)
           (ServerThread_object 9000) sample_engine);
    [reflexivity | simpl; lia | reflexivity | reflexivity | reflexivity].
Defined.

(** X26. When [liblo.Address] refuses the outbound target with an
    [AddressError], [osc_init] logs the failure between the two busy
    signals and returns normally with the engine as it was: on an engine
    whose target and server are unset, they stay unset. *)
Theorem osc_init_address_refused (w : world) (proto : Z) (s : state) :
  zyngui s = Some Gui → 0 <= loading s →
  w_address w "localhost" (osc_target_port s) proto = Raise AddressError →
  osc_init w proto s
  = (Ok tt,
     add_trace
       [EvGuiStartLoading;
        EvLog LError
          "OSC Server can't be initialized. Running without OSC feedback.";
        EvGuiStopLoading] s) ∧
  (osc_target s = None → osc_server s = None →
   osc_degraded (osc_init w proto s)).
Proof.
  intros Hg Hl Hw.
  assert (Hr : osc_init w proto s
               = (Ok tt,
                  add_trace
                    [EvGuiStartLoading;
                     EvLog LError
                       "OSC Server can't be initialized. Running without OSC feedback.";
                     EvGuiStopLoading] s)).
  { unfold osc_init, try_except. run_monad.
    rewrite start_loading_gui by done. simpl. rewrite Hw. simpl.
    rewrite stop_loading_gui by done. simpl. f_equal. state_eq. }
  split; [done|]. intros Ht Hsv. rewrite Hr. unfold osc_degraded. simpl.
  repeat split; try done.
  - eexists. rewrite !elem_of_app. right. apply elem_of_cons. right.
    apply elem_of_cons. left. reflexivity.
  - by rewrite last_app.
Qed.

Lemma osc_init_address_refused_witness :
  osc_init world_no_address 1 sample_engine
  = (Ok tt,
     add_trace
       [EvGuiStartLoading;
        EvLog LError
          "OSC Server can't be initialized. Running without OSC feedback.";
        EvGuiStopLoading] sample_engine) ∧
  osc_degraded (osc_init world_no_address 1 sample_engine).
Proof.
  destruct (osc_init_address_refused world_no_address 1 sample_engine)
    as [Ha Hb]; [reflexivity | simpl; lia | reflexivity |].
  split; [exact Ha | by apply Hb].
Defined.

(** X11. [osc_end] does nothing without a server; with one it only logs,
    between the two busy signals: the server object stays in place and is
    not stopped. *)
Theorem osc_end_keeps_server (s : state) :
  (osc_server s = None → osc_end s = (Ok tt, s)) ∧
  (∀ sv, osc_server s = Some sv → zyngui s = Some Gui → 0 <= loading s →
     osc_end s
     = (Ok tt, add_trace [EvGuiStartLoading; EvLog LInfo "OSC server stopped";
                          EvGuiStopLoading] s)).
Proof.
  split.
  - intros Hs. unfold osc_end. run_monad. by rewrite Hs.
  - intros sv Hs Hg Hl. unfold osc_end, try_except. run_monad. rewrite Hs.
    run_monad. rewrite start_loading_gui by done. simpl.
    rewrite stop_loading_gui by done. simpl.
    f_equal. state_eq.
Qed.

Lemma osc_end_keeps_server_witness :
  osc_end sample_engine = (Ok tt, sample_engine) ∧
  osc_end sample_osc
  = (Ok tt, add_trace [EvGuiStartLoading; EvLog LInfo "OSC server stopped";
                       EvGuiStopLoading] sample_osc).
Proof.
  destruct (osc_end_keeps_server sample_engine) as [Ha _].
  destruct (osc_end_keeps_server sample_osc) as [_ Hb].
  split; [by apply Ha|].
  apply (Hb (ServerThread_object 9000)); [reflexivity | reflexivity|].
  simpl. lia.
Defined.

(** ** More on directory listings *)

Lemma insert_sorted_perm x l : Permutation (insert_sorted x l) (x :: l).
Proof.
  induction l as [|y l IH]; simpl; [done|].
  destruct (String.ltb y x || String.eqb y x)%bool; [|done].
  rewrite IH. apply perm_swap.
Qed.

Lemma str_le_total a b : ¬ str_le a b → str_le b a.
Proof.
  unfold str_le, String.ltb. intros H.
  rewrite (String.compare_antisym b a).
  destruct (String.compare a b) eqn:E; simpl in *; try done.
  apply String.compare_eq_iff in E. subst b.
  rewrite String.eqb_refl in H. by destruct H.
Qed.

Lemma insert_sorted_sorted x l :
  Sorted str_le l → Sorted str_le (insert_sorted x l).
Proof.
  induction l as [|y l IH]; intros Hs; simpl.
  - by repeat constructor.
  - destruct (String.ltb y x || String.eqb y x)%bool eqn:E.
    + inversion Hs as [|? ? Hl Hhd]; subst. constructor; [by apply IH|].
      destruct l as [|z l]; simpl.
      * by constructor.
      * destruct (String.ltb z x || String.eqb z x)%bool;
          constructor; [by inversion Hhd|done].
    + constructor; [done|]. constructor. apply str_le_total.
      unfold str_le. by rewrite E.
Qed.

(** X12. [sorted] returns the names it was given, each as often as it was
    given, in ascending byte order. *)
Theorem sorted_ascending_permutation (l : list string) :
  Permutation (sorted l) l ∧ Sorted str_le (sorted l).
Proof.
  split.
  - induction l as [|x l IH]; simpl; [done|].
    by rewrite insert_sorted_perm, IH.
  - induction l as [|x l IH]; simpl; [constructor|].
    by apply insert_sorted_sorted.
Qed.

Lemma filelist_files_spec w dn dp fext fs : ∀ res i,
  filelist_files w dn dp fext fs (res, i)
  = ((res ++ imap (fun k f =>
                     mk_entry (join dp f) (i + Z.of_nat k)
                       (let title := str_replace_underscore
                                       (str_drop_last (String.length fext) f)
                        in if String.eqb dn "_" then title
                           else dn ++ "/" ++ title) dn)
              (List.filter
                 (fun f => w_isfile w (join dp f)
                           && String.eqb
                                (str_lower (str_last (String.length fext) f))
                                fext)%bool fs))%list,
     i + Z.of_nat
           (length (List.filter
                      (fun f => w_isfile w (join dp f)
                                && String.eqb
                                     (str_lower
                                        (str_last (String.length fext) f))
                                     fext)%bool fs))).
Proof.
  induction fs as [|f fs IH]; intros res i.
  - simpl. rewrite app_nil_r. f_equal. lia.
  - cbn [filelist_files List.filter].
    destruct (w_isfile w (join dp f)
              && String.eqb (str_lower (str_last (String.length fext) f))
                   fext)%bool.
    + rewrite IH. cbn [imap length]. rewrite <- app_assoc. simpl.
      f_equal; [|lia]. do 2 f_equal.
      * f_equal. lia.
      * apply imap_ext. intros k x _. simpl. f_equal. lia.
    + by rewrite IH.
Qed.

(** X13. On one directory that can be listed, [get_filelist] returns, in
    ascending order of the names, exactly the names that are files and end
    in the extension (compared in lower case), each with its joined path,
    its rank from 0 as index, its name without the extension and with
    underscores turned into spaces as title, and the root ["_"]; it opens
    and closes one busy period. *)
Theorem get_filelist_single_root (w : world) (d fext : string)
    (l : list string) (s : state) :
  zyngui s = Some Gui → 0 <= loading s →
  w_listdir w d = Ok l →
  get_filelist w (inl d) fext s
  = (Ok (imap (fun k f =>
                 mk_entry (join d f) (Z.of_nat k)
                   (str_replace_underscore
                      (str_drop_last (String.length ("." ++ fext)) f))
                   "_")
           (List.filter (listed_file w d fext) (sorted l))),
     add_trace [EvGuiStartLoading; EvGuiStopLoading] s).
Proof.
  intros Hg Hl Hw. unfold get_filelist. run_monad.
  rewrite start_loading_gui by done. cbn [fst snd filelist_roots].
  unfold bind, lift. rewrite Hw. rewrite filelist_files_spec.
  unfold ret. rewrite stop_loading_gui by done. simpl.
  f_equal. state_eq.
Qed.

Lemma get_filelist_single_root_witness :
  get_filelist sample_world (inl "/data/kit") "wav" sample_engine
  = (Ok (imap (fun k f =>
                 mk_entry (join "/data/kit" f) (Z.of_nat k)
                   (str_replace_underscore
                      (str_drop_last (String.length ("." ++ "wav")) f))
                   "_")
           (List.filter (listed_file sample_world "/data/kit" "wav")
              (sorted ["piano_1.wav"; "drums.wav"]))),
     add_trace [EvGuiStartLoading; EvGuiStopLoading] sample_engine).
Proof.
  apply (get_filelist_single_root sample_world "/data/kit" "wav"
           ["piano_1.wav"; "drums.wav"] sample_engine);
    [reflexivity | simpl; lia | reflexivity].
Defined.

Lemma filelist_roots_inv w fext (labels : list string) : ∀ dpath acc s r s',
  filelist_roots w fext dpath acc s = (Ok r, s') →
  Forall (fun p : string * string => p.1 ∈ labels) dpath →
  (acc.2 = Z.of_nat (length acc.1) ∧
   ∀ k e, acc.1 !! k = Some e → e_index e = Z.of_nat k ∧ e_root e ∈ labels) →
  r.2 = Z.of_nat (length r.1) ∧
  ∀ k e, r.1 !! k = Some e → e_index e = Z.of_nat k ∧ e_root e ∈ labels.
Proof.
  induction dpath as [|[dn dp] dpath IH]; intros [res i] s r s' Hr Hlab Hinv.
  - inversion Hr; subst. done.
  - cbn [filelist_roots] in Hr. unfold bind, lift in Hr.
    destruct (w_listdir w dp) as [fs|]; [|discriminate].
    inversion Hlab as [|? ? Hdn Hlab']; subst. simpl in Hdn.
    rewrite filelist_files_spec in Hr.
    eapply IH; [exact Hr|done|]. simpl in *. destruct Hinv as [-> Hinv].
    split; [rewrite length_app, length_imap; lia|].
    intros k e Hk. destruct (decide (k < length res)%nat) as [Hlt|Hge].
    + rewrite lookup_app_l in Hk by done. by apply Hinv.
    + rewrite lookup_app_r in Hk by lia. rewrite list_lookup_imap in Hk.
      destruct (_ !! (k - length res)%nat) as [f|]; [|discriminate].
      simpl in Hk. inversion Hk; subst e. simpl. split; [lia|done].
Qed.

(** X14. Whenever [get_filelist] returns, over one directory or over any
    list of labelled roots, the entry at position [k] of the result carries
    the index [k], and the root of every entry is one of the labels given
    (["_"] for a single directory). *)
Theorem get_filelist_indices (w : world)
    (dpath : string + list (string * string)) (fext : string)
    (s s' : state) (res : list entry) :
  get_filelist w dpath fext s = (Ok res, s') →
  ∀ k e, res !! k = Some e →
    e_index e = Z.of_nat k ∧
    e_root e ∈ match dpath with inl _ => ["_"] | inr l => map fst l end.
Proof.
  intros Hr. unfold get_filelist, bind, ret in Hr.
  destruct (start_loading s) as [[[]|] s0]; [|discriminate].
  destruct (filelist_roots _ _ _ _ s0) as [[r|] s1] eqn:Hroots;
    [|discriminate].
  destruct (stop_loading s1) as [[[]|] s2]; [|discriminate].
  inversion Hr; subst res s'.
  eapply (filelist_roots_inv w) in Hroots as [_ H]; [exact H| |].
  - destruct dpath as [d|l]; [by repeat constructor|].
    apply Forall_forall. intros [dn dp] Hin. simpl.
    apply list_elem_of_In, in_map_iff. exists (dn, dp).
    split; [done|]. by apply list_elem_of_In.
  - split; [done|]. intros k e Hk. simpl in Hk. by rewrite lookup_nil in Hk.
Qed.

Lemma get_filelist_indices_witness :
  e_index (mk_entry (join "/data/kit" "piano_1.wav") 1 "kit/piano 1" "kit")
    = Z.of_nat 1 ∧
  e_root (mk_entry (join "/data/kit" "piano_1.wav") 1 "kit/piano 1" "kit")
    ∈ map fst [("kit", "/data/kit")].
Proof.
  apply (get_filelist_indices sample_world (inr [("kit", "/data/kit")]) "wav"
           sample_engine
           (get_filelist sample_world (inr [("kit", "/data/kit")]) "wav"
              sample_engine).2
           [mk_entry (join "/data/kit" "drums.wav") 0 "kit/drums" "kit";
            mk_entry (join "/data/kit" "piano_1.wav") 1 "kit/piano 1" "kit"]).
  - by vm_compute.
  - reflexivity.
Defined.

(** ** Directory lists *)

Lemma substring_full (p : string) : substring 0 (String.length p) p = p.
Proof. induction p as [|c p IH]; simpl; [done|]. by f_equal. Qed.

Lemma substring_split (p : string) : ∀ n,
  (substring 0 n p ++ substring n (String.length p - n) p)%string = p.
Proof.
  induction p as [|c p IH]; intros [|n]; try done.
  - rewrite Nat.sub_0_r. change (substring 0 0 (String c p)) with EmptyString.
    apply substring_full.
  - change (String c (substring 0 n p
                      ++ substring n (String.length p - n) p)%string
            = String c p).
    f_equal. apply IH.
Qed.

Lemma str_append_nil (p : string) : (p ++ EmptyString)%string = p.
Proof.
  induction p as [|c p IH]; [done|].
  change (String c (p ++ EmptyString)%string = String c p). by rewrite IH.
Qed.

Lemma rfind_from_none (c : ascii) (p : string) : ∀ pos last,
  c ∉ list_ascii_of_string p → rfind_from c p pos last = last.
Proof.
  induction p as [|a p IH]; intros pos last Hc; simpl; [done|].
  simpl in Hc. apply not_elem_of_cons in Hc as [Hne Hc].
  rewrite IH by done. destruct (Ascii.eqb_spec a c); congruence.
Qed.

Lemma rfind_from_ge (c : ascii) (p : string) : ∀ pos last,
  0 <= pos → -1 <= last → -1 <= rfind_from c p pos last.
Proof.
  induction p as [|a p IH]; intros pos last Hp Hl; simpl; [done|].
  destruct (Ascii.eqb a c); apply IH; lia.
Qed.

(** X15. [os.path.splitext] cuts a name in two parts that put together give
    the name back; a name without a dot keeps all of itself as root and has
    no extension. *)
Theorem splitext_round_trip (p : string) :
  ((splitext p).1 ++ (splitext p).2)%string = p ∧
  ("."%char ∉ list_ascii_of_string p → splitext p = (p, EmptyString)).
Proof.
  split.
  - unfold splitext. destruct (_ && _)%bool; simpl.
    + apply substring_split.
    + apply str_append_nil.
  - intros Hd. unfold splitext, rfind. rewrite (rfind_from_none "." p) by done.
    assert (-1 <= rfind_from "/" p 0 (-1)) as Hge
      by (apply rfind_from_ge; lia).
    destruct (Z.ltb_spec (rfind_from "/" p 0 (-1)) (-1)); [lia|done].
Qed.

Lemma splitext_round_trip_witness :
  ((splitext "bass_lines").1 ++ (splitext "bass_lines").2)%string
    = "bass_lines" ∧
  ("."%char ∉ list_ascii_of_string "bass_lines" →
   splitext "bass_lines" = ("bass_lines", EmptyString)).
Proof. apply (splitext_round_trip "bass_lines"). Defined.

Lemma dirlist_files_spec w dn dp fs : ∀ res i,
  dirlist_files w dn dp fs (res, i)
  = ((res ++ imap (fun k f =>
                     mk_entry (join dp f) (i + Z.of_nat k)
                       (let title := str_replace_underscore (splitext f).1
                        in if String.eqb dn "_" then title
                           else dn ++ "/" ++ title) dn)
              (List.filter (fun f => w_isdir w (join dp f)) fs))%list,
     i + Z.of_nat
           (length (List.filter (fun f => w_isdir w (join dp f)) fs))).
Proof.
  induction fs as [|f fs IH]; intros res i.
  - simpl. rewrite app_nil_r. f_equal. lia.
  - cbn [dirlist_files List.filter].
    destruct (w_isdir w (join dp f)).
    + rewrite IH. cbn [imap length]. rewrite <- app_assoc. simpl.
      f_equal; [|lia]. do 2 f_equal.
      * f_equal. lia.
      * apply imap_ext. intros k x _. simpl. f_equal. lia.
    + by rewrite IH.
Qed.

(** X16. On one directory that can be listed, [get_dirlist] returns, in
    ascending order of the names, exactly the names that are directories,
    each with its joined path, its rank from 0 as index, and as title its
    name cut by [splitext] (a directory [pads.v2] is titled [pads]) with
    underscores turned into spaces; it opens and closes one busy period. *)
Theorem get_dirlist_single_root (w : world) (d : string)
    (l : list string) (s : state) :
  zyngui s = Some Gui → 0 <= loading s →
  w_listdir w d = Ok l →
  get_dirlist w (inl d) s
  = (Ok (imap (fun k f =>
                 mk_entry (join d f) (Z.of_nat k)
                   (str_replace_underscore (splitext f).1) "_")
           (List.filter (fun f => w_isdir w (join d f)) (sorted l))),
     add_trace [EvGuiStartLoading; EvGuiStopLoading] s).
Proof.
  intros Hg Hl Hw. unfold get_dirlist. run_monad.
  rewrite start_loading_gui by done. cbn [fst snd dirlist_roots].
  unfold bind, lift. rewrite Hw. rewrite dirlist_files_spec.
  unfold ret. rewrite stop_loading_gui by done. simpl.
  f_equal. state_eq.
Qed.

Lemma get_dirlist_single_root_witness :
  get_dirlist world_presets (inl "/data/presets") sample_engine
  = (Ok (imap (fun k f =>
                 mk_entry (join "/data/presets" f) (Z.of_nat k)
                   (str_replace_underscore (splitext f).1) "_")
           (List.filter
              (fun f => w_isdir world_presets (join "/data/presets" f))
              (sorted ["pads.v2"; "readme.txt"; "bass_lines"]))),
     add_trace [EvGuiStartLoading; EvGuiStopLoading] sample_engine) ∧
  (get_dirlist world_presets (inl "/data/presets") sample_engine).1
  = Ok [mk_entry "/data/presets/bass_lines" 0 "bass lines" "_";
        mk_entry "/data/presets/pads.v2" 1 "pads" "_"].
Proof.
  split; [|by vm_compute].
  apply (get_dirlist_single_root world_presets "/data/presets"
           ["pads.v2"; "readme.txt"; "bass_lines"] sample_engine);
    [reflexivity | simpl; lia | reflexivity].
Defined.

(** X17. When listing a directory raises, [get_dirlist] lets the error
    through after the busy period was opened and before it is closed: the
    counter stays one above its value at entry. *)
Theorem get_dirlist_error_keeps_busy (w : world) (d : string) (e : exn)
    (s : state) :
  zyngui s = Some Gui → 0 <= loading s →
  w_listdir w d = Raise e →
  get_dirlist w (inl d) s
  = (Raise e, emit EvGuiStartLoading (set_loading (loading s + 1) s)).
Proof.
  intros Hg Hl Hw. unfold get_dirlist. run_monad.
  rewrite start_loading_gui by done. simpl. rewrite Hw. simpl.
  by replace (Z.max 1 (loading s + 1)) with (loading s + 1) by lia.
Qed.

Lemma get_dirlist_error_keeps_busy_witness :
  get_dirlist sample_world (inl "/nowhere") sample_engine
  = (Raise OSError,
     emit EvGuiStartLoading
       (set_loading (loading sample_engine + 1) sample_engine)).
Proof.
  apply (get_dirlist_error_keeps_busy sample_world "/nowhere" OSError);
    [reflexivity | simpl; lia | reflexivity].
Defined.

(** ** More on loading a channel *)

Lemma slot_insert_ne s (c c' : Z) x cc :
  0 <= c → 0 <= c' → c ≠ c' →
  slot (set_ctrl_config (<[Z.to_nat c := x]> cc) s) c'
  = nth (Z.to_nat c') cc VNone.
Proof.
  intros Hc Hc' Hne. unfold slot. simpl. rewrite !nth_lookup.
  rewrite list_lookup_insert_ne; [done|lia].
Qed.

(** X18. [load_ctrl_config] on a channel of the store always makes a new
    copy, whatever the slot held: afterwards the slot shows what the
    template shows and shares no list with it, every list that existed is
    as it was, the other slots hold what they held, and the heap still has
    no dangling reference. *)
Theorem load_ctrl_config_overwrites (s : state) (c : Z) :
  heap_closed (mem s) → val_in (mem s) (ctrl_list s) →
  0 <= c < Z.of_nat (length (ctrl_config s)) →
  ∃ s', load_ctrl_config (VInt c) s = (Ok tt, s') ∧
    (∀ n, view n (mem s') (slot s' c) = view n (mem s) (ctrl_list s)) ∧
    shares_nothing (mem s') (slot s' c) (ctrl_list s) ∧
    (∀ l items, mem s !! l = Some items → mem s' !! l = Some items) ∧
    (∀ c', 0 <= c' → c' ≠ c → slot s' c' = slot s c') ∧
    ctrl_list s' = ctrl_list s ∧ heap_closed (mem s') ∧
    length (ctrl_config s') = length (ctrl_config s).
Proof.
  intros Hcl Htpl Hc.
  destruct (load_ctrl_config_spec s c Hcl Htpl Hc) as (x' & h' & Hd & Hl).
  destruct (deepcopy_top_spec (mem s) (ctrl_list s) Hcl Htpl)
    as (x'' & h'' & Hd' & Hold & Hx & Hnew & Hview).
  rewrite Hd in Hd'. inversion Hd'; subst x'' h''. clear Hd'.
  eexists. split; [exact Hl|].
  rewrite slot_insert_eq by done. simpl.
  split; [done|]. split; [|split; [done|split; [|split; [done|split]]]].
  - intros l Hr1 Hr2.
    apply (reach_within
             (fun l => mem s !! l = None ∧ is_Some (h' !! l)))
      in Hr1 as [Hn _];
      [|by apply new_region_closed|by apply fresh_in_within].
    apply (reach_within (fun l => is_Some (mem s !! l)))
      in Hr2 as [its Hits];
      [congruence|by apply old_region_closed|by apply val_in_within].
  - intros c' Hc' Hne. rewrite slot_insert_ne by lia. done.
  - by eapply deepcopy_keeps_closed.
  - apply length_insert.
Qed.

Lemma load_ctrl_config_overwrites_witness :
  ∃ s', load_ctrl_config (VInt 3) sample_loaded = (Ok tt, s') ∧
    (∀ n, view n (mem s') (slot s' 3)
          = view n (mem sample_loaded) (ctrl_list sample_loaded)) ∧
    shares_nothing (mem s') (slot s' 3) (ctrl_list sample_loaded) ∧
    (∀ l items, mem sample_loaded !! l = Some items →
                mem s' !! l = Some items) ∧
    (∀ c', 0 <= c' → c' ≠ 3 → slot s' c' = slot sample_loaded c') ∧
    ctrl_list s' = ctrl_list sample_loaded ∧ heap_closed (mem s') ∧
    length (ctrl_config s') = length (ctrl_config sample_loaded).
Proof.
  apply (load_ctrl_config_overwrites sample_loaded 3);
    [apply (bool_decide_unpack _); by vm_compute
    | apply (bool_decide_unpack _); by vm_compute
    | by vm_compute].
Defined.

(** X19. [load_ctrl_config] makes the copy before it subscripts the store.
    For a channel outside the store it raises [IndexError] with the store
    as it was and the copy left in the heap; a negative channel within the
    store counts from the end, so channel [-1] loads the last slot. *)
Theorem load_ctrl_config_bounds (s : state) (c : Z) :
  heap_closed (mem s) → val_in (mem s) (ctrl_list s) →
  let n := Z.of_nat (length (ctrl_config s)) in
  (c < - n ∨ n <= c →
   ∃ x' h', deepcopy_top (mem s) (ctrl_list s) = Some (x', h') ∧
     load_ctrl_config (VInt c) s = (Raise IndexError, set_mem h' s)) ∧
  (- n <= c < 0 →
   load_ctrl_config (VInt c) s = load_ctrl_config (VInt (n + c)) s).
Proof.
  intros Hcl Htpl n. split.
  - intros Hc.
    destruct (deepcopy_top_spec (mem s) (ctrl_list s) Hcl Htpl)
      as (x' & h' & Hd & _).
    exists x', h'. split; [done|].
    unfold load_ctrl_config. run_monad. rewrite Hd. run_monad.
    unfold list_setitem. by rewrite norm_index_outside.
  - intros Hc. unfold load_ctrl_config. run_monad.
    destruct (deepcopy_top (mem s) (ctrl_list s)) as [[x' h']|]; [|done].
    run_monad. unfold list_setitem.
    rewrite norm_index_negative by done.
    by rewrite norm_index_nonneg by (fold n; lia).
Qed.

Lemma load_ctrl_config_bounds_witness :
  (∃ x' h',
     deepcopy_top (mem sample_engine) (ctrl_list sample_engine)
       = Some (x', h') ∧
     load_ctrl_config (VInt 16) sample_engine
       = (Raise IndexError, set_mem h' sample_engine)) ∧
  load_ctrl_config (VInt (-1)) sample_engine
    = load_ctrl_config (VInt 15) sample_engine.
Proof.
  destruct (load_ctrl_config_bounds sample_engine 16) as [Ha _];
    [apply sample_heap_closed | apply (bool_decide_unpack _); by vm_compute|].
  destruct (load_ctrl_config_bounds sample_engine (-1)) as [_ Hb];
    [apply sample_heap_closed | apply (bool_decide_unpack _); by vm_compute|].
  split.
  - apply Ha. right. simpl. lia.
  - apply Hb. simpl. lia.
Defined.

(** ** Broadcasts that fail *)

Lemma for_each_app {A} (xs ys : list A) (body : A → M unit) s :
  for_each (xs ++ ys) body s
  = match for_each xs body s with
    | (Ok _, s') => for_each ys body s'
    | (Raise e, s') => (Raise e, s')
    end.
Proof.
  revert s. induction xs as [|x xs IH]; intros s; simpl; [done|].
  unfold bind. destruct (body x s) as [[[]|e] s1]; [apply IH|done].
Qed.

Lemma range_split (n m : nat) :
  (n <= m)%nat → range m = (range n ++ map Z.of_nat (seq n (m - n)))%list.
Proof.
  intros H. unfold range. rewrite <- map_app. f_equal.
  replace m with (n + (m - n))%nat at 1 by lia. apply seq_app.
Qed.

(** X20. On a store with fewer than sixteen slots, each empty or holding a
    well-shaped configuration, and with a transport that accepts the sends
    of those slots, [set_all_ctrls] sends the messages of the channels that
    have a slot and then raises [IndexError] at the first channel that has
    none. *)
Theorem set_all_ctrls_short_store (w : world) (s : state) :
  (length (ctrl_config s) < 16)%nat → zyngui s = Some Gui →
  forallb (wf_slot (mem s)) (ctrl_config s) = true →
  sends_accepted w (flat_map (channel_msgs w s)
                      (range (length (ctrl_config s)))) = true →
  set_all_ctrls w s
  = (Raise IndexError,
     add_trace (flat_map (channel_msgs w s)
                  (range (length (ctrl_config s)))) s).
Proof.
  intros Hn Hg Hwf Hacc. unfold set_all_ctrls.
  rewrite (range_split (length (ctrl_config s)) 16) by lia.
  rewrite for_each_app, send_channels_delivered by done.
  unfold delivered. rewrite deliver_accepted by done. cbn [fst snd].
  destruct (16 - length (ctrl_config s))%nat as [|m] eqn:E; [lia|].
  cbn [seq map for_each]. unfold bind at 1.
  unfold send_channel. run_monad. unfold list_getitem.
  by rewrite norm_index_outside by lia.
Qed.

Lemma set_all_ctrls_short_store_witness :
  set_all_ctrls sample_world sample_short
  = (Raise IndexError,
     add_trace (flat_map (channel_msgs sample_world sample_short)
                  (range (length (ctrl_config sample_short))))
       sample_short) ∧
  flat_map (channel_msgs sample_world sample_short)
    (range (length (ctrl_config sample_short)))
  = [EvMidiControl 1 7 (VInt 96);
     EvOscSend (Some sample_target) "/part0/cutoff" (VInt 64);
     EvMidiControl 1 7 (VInt 96)].
Proof.
  split; [|by vm_compute].
  apply (set_all_ctrls_short_store sample_world sample_short);
    [simpl; lia | reflexivity | by vm_compute | by vm_compute].
Defined.

Lemma send_channel_first (w : world) (s : state) (ch : nat) l sc g d
    screens rest1 rest2 r :
  (ch < length (ctrl_config s))%nat →
  slot s (Z.of_nat ch) = VRef l →
  mem s !! l = Some (VRef sc :: screens) →
  mem s !! sc = Some (VRef g :: rest1) →
  mem s !! g = Some (VRef d :: rest2) →
  send_ctrl w (Z.of_nat ch) (VRef d) s = (Raise r, s) →
  send_channel w (Z.of_nat ch) s = (Raise r, s).
Proof.
  intros Hch Hslot Hl Hsc Hg Hd.
  unfold send_channel, send_screen. unfold bind, get, lift.
  rewrite slot_getitem, Hslot by done.
  unfold py_truthy, py_iter. rewrite Hl. cbn [length Nat.eqb negb for_each].
  unfold bind, get, lift. unfold py_getitem at 1. rewrite Hsc.
  rewrite (list_getitem_lit _ 0%nat 0 (VRef g)) by done.
  rewrite Hg. cbn [for_each]. unfold bind at 1. by rewrite Hd.
Qed.

(** X21. [set_all_ctrls] on a store of sixteen slots whose first loaded
    channel starts with a descriptor that cannot be sent raises before
    anything is sent: [TypeError] when the addressing id is [None],
    [IndexError] when the descriptor has the three items of a row of
    [midi_ctrls] ([name, cc, value]) or of its OSC counterpart, the range
    at index 3 being missing. *)
Theorem set_all_ctrls_bad_descriptor (w : world) (s : state) (ch : nat)
    l sc g d screens rest1 rest2 items :
  length (ctrl_config s) = 16%nat → (ch < 16)%nat →
  (∀ k, (k < ch)%nat → slot s (Z.of_nat k) = VNone) →
  slot s (Z.of_nat ch) = VRef l →
  mem s !! l = Some (VRef sc :: screens) →
  mem s !! sc = Some (VRef g :: rest1) →
  mem s !! g = Some (VRef d :: rest2) →
  mem s !! d = Some items →
  (∀ nm tl, items = nm :: VNone :: tl →
     set_all_ctrls w s = (Raise TypeError, s)) ∧
  (∀ nm cc v, items = [nm; VInt cc; v] → 0 < cc → zyngui s = Some Gui →
     set_all_ctrls w s = (Raise IndexError, s)) ∧
  (∀ nm path v, items = [nm; VStr path; v] →
     set_all_ctrls w s = (Raise IndexError, s)).
Proof.
  intros Hlen Hch Hnone Hslot Hl Hsc Hg Hd.
  assert (Hpre : ∀ r, send_ctrl w (Z.of_nat ch) (VRef d) s = (Raise r, s) →
            set_all_ctrls w s = (Raise r, s)).
  { intros r Hr. unfold set_all_ctrls. rewrite (range_split ch 16) by lia.
    rewrite for_each_app.
    assert (Hfe : for_each (range ch) (send_channel w) s = (Ok tt, s)).
    { clear Hr. assert (Hle : (ch <= ch)%nat) by lia. revert Hle.
      generalize ch at 1 3 as n. induction n as [|n IH]; intros Hn; [done|].
      rewrite (range_split n (S n)) by lia. rewrite for_each_app, IH by lia.
      replace (S n - n)%nat with 1%nat by lia. cbn [seq map for_each].
      unfold bind at 1. unfold send_channel. unfold bind, get, lift.
      rewrite slot_getitem by lia. rewrite (Hnone n) by lia.
      by simpl. }
    rewrite Hfe. destruct (16 - ch)%nat as [|m] eqn:E; [lia|].
    cbn [seq map for_each]. unfold bind at 1.
    rewrite (send_channel_first w s ch l sc g d screens rest1 rest2 r);
      try done. lia. }
  split; [|split].
  - intros nm tl ->. apply Hpre. unfold send_ctrl. unfold bind, get, lift.
    unfold py_getitem. rewrite Hd.
    by rewrite (list_getitem_lit _ 1%nat 1 VNone).
  - intros nm cc v -> Hcc Hz. apply Hpre.
    unfold send_ctrl. unfold bind, get, lift.
    unfold py_getitem. rewrite Hd.
    rewrite (list_getitem_lit _ 1%nat 1 (VInt cc)) by done. simpl.
    destruct (Z.ltb_spec 0 cc); [|lia]. rewrite Hz. simpl.
    try rewrite (list_getitem_lit _ 2%nat 2 v) by done. done.
  - intros nm path v ->. apply Hpre.
    unfold send_ctrl. unfold bind, get, lift.
    unfold py_getitem. rewrite Hd.
    rewrite (list_getitem_lit _ 1%nat 1 (VStr path)) by done. simpl.
    try rewrite (list_getitem_lit _ 2%nat 2 v) by done. done.
Qed.

Lemma set_all_ctrls_bad_descriptor_witness :
  set_all_ctrls sample_world sample_midi_ctrls
  = (Raise IndexError, sample_midi_ctrls).
Proof.
  destruct (set_all_ctrls_bad_descriptor sample_world sample_midi_ctrls 1
              1%positive 2%positive 3%positive 4%positive
              [] [VInt 0; VStr "main"] []
              [VStr "volume"; VInt 7; VInt 96]) as (_ & Hmidi & _);
    [reflexivity | lia | | reflexivity | reflexivity | reflexivity
    | reflexivity | reflexivity |].
  - intros k Hk. assert (k = 0%nat) as -> by lia. reflexivity.
  - apply (Hmidi (VStr "volume") 7 (VInt 96)); [reflexivity|lia|reflexivity].
Defined.

(** X25. [set_all_ctrls] does not guard its sends.  On a store of sixteen
    slots, each empty or well shaped, when the transport refuses a message
    of the broadcast and accepts those before it, [set_all_ctrls] raises
    the error of that send, having sent the messages before it and none
    after it. *)
Theorem set_all_ctrls_refused_send (w : world) (s : state)
    (pre post : list event) (tgt : option address) (path : string) (v : val)
    (e : exn) :
  length (ctrl_config s) = 16%nat → zyngui s = Some Gui →
  forallb (wf_slot (mem s)) (ctrl_config s) = true →
  broadcast_msgs w s = (pre ++ EvOscSend tgt path v :: post)%list →
  sends_accepted w pre = true →
  w_liblo_send w tgt path v = Raise e →
  set_all_ctrls w s = (Raise e, add_trace pre s).
Proof.
  intros Hlen Hg Hwf Hmsgs Hpre He. unfold set_all_ctrls.
  rewrite send_channels_delivered by (done || lia).
  fold (broadcast_msgs w s). rewrite Hmsgs. unfold delivered.
  by rewrite (deliver_refused w pre tgt path v post e).
Qed.

Lemma set_all_ctrls_refused_send_witness :
  set_all_ctrls sample_world sample_loaded
  = (Raise TypeError, add_trace [EvMidiControl 3 7 (VInt 96)] sample_loaded).
Proof.
  apply (set_all_ctrls_refused_send sample_world sample_loaded
           [EvMidiControl 3 7 (VInt 96)] [EvMidiControl 3 7 (VInt 96)]
           None "/part0/cutoff" (VInt 64) TypeError);
    by vm_compute.
Defined.

(** ** The remote display *)

Lemma str_cons_app c (a b : string) :
  (String c a ++ b)%string = String c (a ++ b)%string.
Proof. reflexivity. Qed.

Lemma split_on_no_sep (c : ascii) (k : string) :
  c ∉ list_ascii_of_string k → split_on c k = [k].
Proof.
  induction k as [|a k IH]; intros Hc; [done|].
  simpl in Hc. apply not_elem_of_cons in Hc as [Hne Hc].
  simpl. destruct (Ascii.eqb_spec a c); [congruence|]. by rewrite IH.
Qed.

Lemma split_on_sep (c : ascii) (k r : string) :
  c ∉ list_ascii_of_string k →
  split_on c (k ++ String c r) = k :: split_on c r.
Proof.
  induction k as [|a k IH]; intros Hc.
  - simpl. by rewrite Ascii.eqb_refl.
  - simpl in Hc. apply not_elem_of_cons in Hc as [Hne Hc].
    rewrite str_cons_app. simpl.
    destruct (Ascii.eqb_spec a c); [congruence|]. by rewrite IH.
Qed.

(** X22. One line of the display file, once stripped: [KEY=VALUE] sets
    [KEY] to [VALUE]; a value is cut at its first [=], so [KEY=VALUE=REST]
    sets [KEY] to [VALUE] too; a line without [=] or with an empty value
    sets nothing. *)
Theorem display_line_parses (fvars : env) (line : string) :
  (∀ k v, "="%char ∉ list_ascii_of_string k →
     "="%char ∉ list_ascii_of_string v → v ≠ EmptyString →
     str_strip line = (k ++ String "=" v)%string →
     display_line fvars line = <[k:=v]> fvars) ∧
  (∀ k v rest, "="%char ∉ list_ascii_of_string k →
     "="%char ∉ list_ascii_of_string v → v ≠ EmptyString →
     str_strip line = (k ++ String "=" (v ++ String "=" rest))%string →
     display_line fvars line = <[k:=v]> fvars) ∧
  (∀ k, "="%char ∉ list_ascii_of_string k →
     str_strip line = k ∨
     str_strip line = (k ++ String "=" EmptyString)%string →
     display_line fvars line = fvars).
Proof.
  split; [|split].
  - intros k v Hk Hv Hne Hl. unfold display_line. rewrite Hl.
    rewrite split_on_sep, split_on_no_sep by done.
    by destruct (String.eqb_spec v "").
  - intros k v rest Hk Hv Hne Hl. unfold display_line. rewrite Hl.
    rewrite !split_on_sep by done.
    by destruct (String.eqb_spec v "").
  - intros k Hk [Hl|Hl]; unfold display_line; rewrite Hl.
    + by rewrite split_on_no_sep.
    + by rewrite split_on_sep.
Qed.

Lemma display_line_parses_witness :
  display_line ∅ "  DISPLAY=10.0.0.2:0=x  " = <["DISPLAY":="10.0.0.2:0"]> ∅ ∧
  display_line ∅ "# no display" = ∅.
Proof.
  destruct (display_line_parses ∅ "  DISPLAY=10.0.0.2:0=x  ")
    as (_ & Hcut & _).
  destruct (display_line_parses ∅ "# no display") as (_ & _ & Hnone).
  split.
  - apply (Hcut "DISPLAY" "10.0.0.2:0" "x");
      [apply (bool_decide_unpack _); by vm_compute
      | apply (bool_decide_unpack _); by vm_compute | done | reflexivity].
  - apply (Hnone "# no display");
      [apply (bool_decide_unpack _); by vm_compute|]. by left.
Defined.

(** X23. [config_remote_display] never raises.  Either it reports no
    display, logs it and leaves [command_env] as it was, or it reports a
    display, logs it and sets [command_env] to an environment that holds
    every variable of [os.environ] and a non-empty [DISPLAY], the one
    logged. *)
Theorem config_remote_display_result (environ : env)
    (file : result (list string)) (command_env : option env) (s : state) :
  config_remote_display environ file command_env s
    = (Ok (false, command_env), emit (EvLog LInfo "NO REMOTE DISPLAY") s) ∨
  ∃ e' d,
    config_remote_display environ file command_env s
      = (Ok (true, Some e'),
         emit (EvLog LInfo ("REMOTE DISPLAY: " ++ d)) s) ∧
    d ≠ EmptyString ∧ e' !! "DISPLAY" = Some d ∧
    ∀ k, is_Some (environ !! k) → is_Some (e' !! k).
Proof.
  unfold config_remote_display.
  match goal with
  | |- context [match ?f !! "DISPLAY" with _ => _ end] =>
      set (fvars := f); destruct (fvars !! "DISPLAY") as [[|a d]|] eqn:E
  end; try (by left).
  right. exists (fvars ∪ environ), (String a d).
  split; [done|]. split; [done|].
  split; [by apply lookup_union_Some_l|].
  intros k [v Hk]. destruct (fvars !! k) as [v'|] eqn:Ek.
  - exists v'. by apply lookup_union_Some_l.
  - exists v. rewrite lookup_union_r; done.
Qed.

(** X24. A non-empty [ZYNTHIANX] in the environment decides alone: the
    display file is not looked at, the result is true and [command_env]
    becomes the environment with [DISPLAY] set to that value.  Without
    it, an unreadable display file gives no display. *)
Theorem config_remote_display_override (environ : env)
    (file : result (list string)) (command_env : option env) (s : state) :
  (∀ a z, environ !! "ZYNTHIANX" = Some (String a z) →
     config_remote_display environ file command_env s
     = (Ok (true, Some (<["DISPLAY" := String a z]> environ)),
        emit (EvLog LInfo ("REMOTE DISPLAY: " ++ String a z)) s)) ∧
  (∀ e, environ !! "ZYNTHIANX" = None ∨
        environ !! "ZYNTHIANX" = Some EmptyString →
     file = Raise e →
     config_remote_display environ file command_env s
     = (Ok (false, command_env),
        emit (EvLog LInfo "NO REMOTE DISPLAY") s)).
Proof.
  split.
  - intros a z Hz. unfold config_remote_display. rewrite Hz.
    rewrite lookup_singleton_eq. run_monad.
    by rewrite insert_union_singleton_l.
  - intros e Hz ->. unfold config_remote_display.
    destruct Hz as [-> | ->]; by rewrite lookup_singleton_eq.
Qed.

Lemma config_remote_display_override_witness :
  config_remote_display {[ "ZYNTHIANX" := "10.0.0.2:0" ]}
    (Raise OSError) None sample_engine
  = (Ok (true, Some (<["DISPLAY" := "10.0.0.2:0"]>
                       {[ "ZYNTHIANX" := "10.0.0.2:0" ]})),
     emit (EvLog LInfo ("REMOTE DISPLAY: " ++ "10.0.0.2:0")) sample_engine) ∧
  config_remote_display ∅ (Raise OSError) None sample_engine
  = (Ok (false, None),
     emit (EvLog LInfo "NO REMOTE DISPLAY") sample_engine).
Proof.
  destruct (config_remote_display_override
              {[ "ZYNTHIANX" := "10.0.0.2:0" ]} (Raise OSError) None
              sample_engine) as [Ha _].
  destruct (config_remote_display_override ∅ (Raise OSError) None
              sample_engine) as [_ Hb].
  split.
  - apply (Ha "1"%char "0.0.0.2:0"). reflexivity.
  - apply (Hb OSError); [by left|reflexivity].
Defined.
